(** * Text heuristics of the LinkedIn tools

    A shallow embedding of the pure text functions that the demo agents
    register as tools (length classifier, hashtag recommender, engagement
    scorer, formatting validator, reflow formatter), with the properties
    that the repository's specification states about them.

    Text model.  A Python [str] is embedded as a list of characters of
    the 8-bit range (code points 0..255, i.e. Latin-1); [len] is the list
    length.  [str.lower], [str.strip] and [str.split] follow Python on
    that range.  Constant messages of the source that hold characters
    outside that range (the check marks of the feedback lines) are
    carried as the bytes of the literal; they are only ever compared and
    concatenated. *)

From Stdlib Require Import ZArith NArith Ascii String List Bool Lia DecimalString
  DecimalNat.
From stdpp Require Import base decidable option list finite gmap strings.
Import ListNotations.

Local Open Scope nat_scope.

Abbreviation str := (list ascii).

(** A string literal as a [str]. *)
Definition lit (s : string) : str := list_ascii_of_string s.

(** ** Python string builtins used by the tools *)
Module Py.

(** [c.isspace()] on the 8-bit range: TAB..CR, FS..US, space, NEL, NBSP. *)
Definition is_space (c : ascii) : bool :=
  let n := N_of_ascii c in
  ((9 <=? n) && (n <=? 13) || (28 <=? n) && (n <=? 32)
   || (n =? 133) || (n =? 160))%N.

(** [c.lower()] on the 8-bit range: A..Z and the accented capitals
    (0xC0..0xDE except the multiplication sign 0xD7) move up by 32. *)
Definition lower_char (c : ascii) : ascii :=
  let n := N_of_ascii c in
  if ((65 <=? n) && (n <=? 90) || (192 <=? n) && (n <=? 214)
      || (216 <=? n) && (n <=? 222))%N
  then ascii_of_N (n + 32) else c.

(** [s.lower()] *)
Definition lower (s : str) : str := map lower_char s.

(** [s.startswith(p)] *)
Fixpoint startswith (p s : str) : bool :=
  match p, s with
  | [], _ => true
  | _ :: _, [] => false
  | a :: p', b :: s' => Ascii.eqb a b && startswith p' s'
  end.

(** [needle in hay] *)
Fixpoint contains (needle hay : str) : bool :=
  startswith needle hay ||
  match hay with
  | [] => false
  | _ :: hay' => contains needle hay'
  end.

(** [any(f(x) for x in l)] *)
Definition any {A} (f : A -> bool) (l : list A) : bool := existsb f l.

(** [s.replace(c, r)] for a one-character pattern [c]. *)
Definition replace (c : ascii) (r : str) (s : str) : str :=
  flat_map (fun x => if Ascii.eqb x c then r else [x]) s.

(** Fields of [s] between the characters that satisfy [p]; always at
    least one field, and empty fields are kept. *)
Fixpoint fields (p : ascii -> bool) (s : str) : list str :=
  match s with
  | [] => [[]]
  | c :: s' =>
      if p c then [] :: fields p s'
      else match fields p s' with
           | [] => [[c]]
           | f :: fs => (c :: f) :: fs
           end
  end.

(** [s.split(c)] for a one-character separator [c]. *)
Definition split (c : ascii) (s : str) : list str :=
  fields (Ascii.eqb c) s.

(** Truth value of a string, and of a list. *)
Definition nonempty (s : str) : bool :=
  match s with [] => false | _ :: _ => true end.

Definition nonempty_list {A} (l : list A) : bool :=
  match l with [] => false | _ :: _ => true end.

(** [s.split()]: maximal runs of non-whitespace characters. *)
Definition split_ws (s : str) : list str :=
  List.filter nonempty (fields is_space s).

(** [s.lstrip()], [s.rstrip()], [s.strip()] *)
Fixpoint lstrip (s : str) : str :=
  match s with
  | [] => []
  | c :: s' => if is_space c then lstrip s' else s
  end.

Definition rstrip (s : str) : str := rev (lstrip (rev s)).

Definition strip (s : str) : str := rstrip (lstrip s).

(** [sep.join(l)] *)
Fixpoint join (sep : str) (l : list str) : str :=
  match l with
  | [] => []
  | [x] => x
  | x :: l' => x ++ sep ++ join sep l'
  end.

(** [str(n)] for a non-negative integer. *)
Definition str_of_nat (n : nat) : str :=
  lit (NilZero.string_of_uint (Nat.to_uint n)).

(** [str(z)] for an integer. *)
Definition str_of_Z (z : Z) : str :=
  lit (NilZero.string_of_int (Z.to_int z)).

(** [list(dict.fromkeys(l))]: the keys of an insertion-ordered
    dictionary filled from [l], i.e. [l] without the later occurrences
    of each element. *)
Definition dict_fromkeys (l : list str) : list str :=
  fold_left (fun keys k => if decide (k ∈ keys) then keys else keys ++ [k])
            l [].

(** [x in l] for a list, and [c in s] for a set of characters. *)
Definition elem_char (c : ascii) (s : str) : bool := existsb (Ascii.eqb c) s.

(** [l.remove(x)]: the list without the first element equal to [x];
    [None] is the [ValueError] of a list without such an element. *)
Fixpoint remove {A} `{EqDecision A} (x : A) (l : list A) : option (list A) :=
  match l with
  | [] => None
  | y :: l' => if decide (y = x) then Some l' else cons y <$> remove x l'
  end.

End Py.

Definition NL : ascii := "010"%char.

(** Scores are Python integers. *)
Local Open Scope Z_scope.

(** ** app.py *)
Module App.
Import Py.

Definition too_short (length : nat) : str :=
  lit "Post is " ++ str_of_nat length ++
  lit " characters - TOO SHORT. LinkedIn posts should be under 2,500 characters but with substantial content.".

Definition perfect_length (length : nat) : str :=
  lit "Post is " ++ str_of_nat length ++
  lit " characters - PERFECT LENGTH. Under the 2,500 character limit!".

Definition too_long (length : nat) : str :=
  lit "Post is " ++ str_of_nat length ++
  lit " characters - TOO LONG. Must be under 2,500 characters. Please shorten the content.".

Definition analyze_post_length (content : str) : str :=
  let length := List.length content in
  if (length <? 300)%nat then too_short length
  else if (length <=? 2500)%nat then perfect_length length
  else too_long length.

End App.

(** ** streamlit_ui.py *)
Module StreamlitUi.
Import Py.

Definition too_short (length : nat) : str :=
  lit "Post is " ++ str_of_nat length ++
  lit " characters - TOO SHORT. LinkedIn posts should be 1300-3000 characters for optimal reach.".

Definition short (length : nat) : str :=
  lit "Post is " ++ str_of_nat length ++
  lit " characters - SHORT. Consider expanding with more details, examples, or insights.".

Definition optimal_length (length : nat) : str :=
  lit "Post is " ++ str_of_nat length ++
  lit " characters - OPTIMAL LENGTH. Perfect for LinkedIn engagement!".

Definition too_long (length : nat) : str :=
  lit "Post is " ++ str_of_nat length ++
  lit " characters - TOO LONG. Consider breaking into multiple posts or cutting unnecessary content.".

Definition analyze_post_length (content : str) : str :=
  let length := List.length content in
  if (length <? 300)%nat then too_short length
  else if (length <? 1300)%nat then short length
  else if (length <=? 3000)%nat then optimal_length length
  else too_long length.

End StreamlitUi.

(** ** The engagement scorer, identical in linkedin_agent_example.py and
    web_ui_server.py up to the last character *)
Module EngagementChecks.
Import Py.

(** One [if cond: score += points; feedback.append(ok) else:
    feedback.append(ko)] block, on the pair of the two locals. *)
Definition check (cond : bool) (points : Z) (ok ko : str)
    (st : Z * list str) : Z * list str :=
  if cond then (st.1 + points, st.2 ++ [ok]) else (st.1, st.2 ++ [ko]).

Definition personal_indicators : list str :=
  [lit "I learned"; lit "My experience"; lit "When I"; lit "I discovered";
   lit "I realized"].

Definition action_words : list str :=
  [lit "tip"; lit "strategy"; lit "how to"; lit "step"; lit "method";
   lit "technique"].

Definition has_question (content : str) : bool := contains (lit "?") content.

Definition has_personal (content : str) : bool :=
  any (fun indicator => contains (lower indicator) (lower content))
      personal_indicators.

Definition has_action (content : str) : bool :=
  any (fun word => contains word (lower content)) action_words.

Definition has_paragraphs (content : str) : bool := contains [NL; NL] content.

Definition has_optimal_length (content : str) : bool :=
  let length := List.length content in
  ((1300 <=? length) && (length <=? 3000))%nat.

Definition ok_question := lit "✅ Contains questions (encourages comments)".
Definition ko_question :=
  lit "❌ No questions found - add questions to encourage engagement".
Definition ok_personal :=
  lit "✅ Includes personal experience (builds connection)".
Definition ko_personal :=
  lit "⚠️ Consider adding personal experience or story".
Definition ok_action := lit "✅ Contains actionable content".
Definition ko_action := lit "⚠️ Consider adding actionable tips or insights".
Definition ok_paragraphs := lit "✅ Good paragraph breaks".
Definition ko_paragraphs := lit "❌ Needs better paragraph formatting".
Definition ok_length := lit "✅ Optimal length".
Definition ko_length := lit "❌ Length needs adjustment".

(** The locals [score] and [feedback] after the five checks. *)
Definition run_checks (content : str) : Z * list str :=
  let st := (0, []) in
  let st := check (has_question content) 20 ok_question ko_question st in
  let st := check (has_personal content) 25 ok_personal ko_personal st in
  let st := check (has_action content) 20 ok_action ko_action st in
  let st := check (has_paragraphs content) 15 ok_paragraphs ko_paragraphs st in
  let st := check (has_optimal_length content) 20 ok_length ko_length st in
  st.

Definition score (content : str) : Z := (run_checks content).1.
Definition feedback (content : str) : list str := (run_checks content).2.

Definition level_of (score : Z) : str :=
  if 80 <=? score then lit "HIGH"
  else if 60 <=? score then lit "MEDIUM-HIGH"
  else if 40 <=? score then lit "MEDIUM"
  else lit "LOW".

Definition level (content : str) : str := level_of (score content).

Definition check_engagement_potential (content : str) : str :=
  lit "Engagement Score: " ++ str_of_Z (score content) ++ lit "/100 (" ++
  level content ++ lit ")" ++ [NL; NL] ++ lit "Feedback:" ++ [NL] ++
  join [NL] (feedback content).

End EngagementChecks.

(** ** linkedin_agent_example.py *)
Module LinkedinAgentExample.
Import Py.

Definition general_hashtags : list str :=
  [lit "#LinkedIn"; lit "#Professional"; lit "#Career"; lit "#Business";
   lit "#Growth"].

Definition industry_hashtags : gmap str (list str) :=
  list_to_map
    [(lit "tech",
      [lit "#Technology"; lit "#Innovation"; lit "#AI"; lit "#Software";
       lit "#TechTrends"]);
     (lit "marketing",
      [lit "#Marketing"; lit "#DigitalMarketing"; lit "#ContentMarketing";
       lit "#Branding"; lit "#SocialMedia"]);
     (lit "leadership",
      [lit "#Leadership"; lit "#Management"; lit "#TeamBuilding";
       lit "#ExecutiveCoaching"; lit "#WorkplaceCulture"]);
     (lit "entrepreneurship",
      [lit "#Entrepreneur"; lit "#Startup"; lit "#SmallBusiness";
       lit "#Innovation"; lit "#BusinessGrowth"]);
     (lit "finance",
      [lit "#Finance"; lit "#Investing"; lit "#FinTech"; lit "#Banking";
       lit "#Economics"]);
     (lit "sales",
      [lit "#Sales"; lit "#B2B"; lit "#CustomerSuccess";
       lit "#SalesStrategy"; lit "#Networking"]);
     (lit "hr",
      [lit "#HumanResources"; lit "#Recruiting"; lit "#TalentAcquisition";
       lit "#WorkplaceCulture"; lit "#EmployeeEngagement"]);
     (lit "consulting",
      [lit "#Consulting"; lit "#Strategy"; lit "#BusinessConsulting";
       lit "#ProfessionalServices"; lit "#Advisory"])].

Definition learning_tags : list str :=
  [lit "#Learning"; lit "#ProfessionalDevelopment"; lit "#SkillBuilding"].
Definition success_tags : list str :=
  [lit "#Success"; lit "#Achievement"; lit "#Goals"].
Definition team_tags : list str :=
  [lit "#Teamwork"; lit "#Collaboration"; lit "#TeamSuccess"].
Definition tip_tags : list str :=
  [lit "#Tips"; lit "#Advice"; lit "#BestPractices"].

(** [if cond: suggested.extend(tags)] *)
Definition extend_if (cond : bool) (tags suggested : list str) : list str :=
  if cond then suggested ++ tags else suggested.

(** The local [suggested] after the four topic rules. *)
Definition suggested (topic : str) : list str :=
  let topic_lower := lower topic in
  let suggested := [] in
  let suggested :=
    extend_if (contains (lit "learn") topic_lower
               || contains (lit "education") topic_lower)
              learning_tags suggested in
  let suggested :=
    extend_if (contains (lit "success") topic_lower
               || contains (lit "achievement") topic_lower)
              success_tags suggested in
  let suggested :=
    extend_if (contains (lit "team") topic_lower
               || contains (lit "collaboration") topic_lower)
              team_tags suggested in
  let suggested :=
    extend_if (contains (lit "tip") topic_lower
               || contains (lit "advice") topic_lower)
              tip_tags suggested in
  suggested.

(** The local [final_hashtags] when the function returns. *)
Definition final_hashtags (topic industry : str) : list str :=
  let final_hashtags := [] in
  let final_hashtags :=
    final_hashtags ++
    take 2 (default [] (industry_hashtags !! lower industry)) in
  let final_hashtags := final_hashtags ++ take 2 (suggested topic) in
  let final_hashtags := final_hashtags ++ take 1 general_hashtags in
  take 5 (dict_fromkeys final_hashtags).

Definition suggest_hashtags (topic industry : str) : str :=
  lit "Recommended hashtags: " ++ join (lit " ") (final_hashtags topic industry).

Definition check_engagement_potential (content : str) : str :=
  EngagementChecks.check_engagement_potential content.

(** [analyze_post_length], with the four messages of streamlit_ui.py. *)
Definition analyze_post_length (content : str) : str :=
  let length := List.length content in
  if (length <? 300)%nat then StreamlitUi.too_short length
  else if (length <? 1300)%nat then StreamlitUi.short length
  else if (length <=? 3000)%nat then StreamlitUi.optimal_length length
  else StreamlitUi.too_long length.

End LinkedinAgentExample.

(** ** web_ui_server.py *)
Module WebUiServer.
Import Py.

Definition check_engagement_potential (content : str) : str :=
  EngagementChecks.check_engagement_potential content.

(** *** format_linkedin_post_correctly *)

(** The body of [for word in words], on the locals [lines] and
    [current_line]. *)
Definition add_word (st : list str * list str) (word : str)
    : list str * list str :=
  let '(lines, current_line) := st in
  let current_line := current_line ++ [word] in
  if (15 <? length (join (lit " ") current_line))%nat then
    if (1 <? length current_line)%nat then
      (lines ++ [join (lit " ") (take (length current_line - 1) current_line)],
       [word])
    else (lines ++ [word], [])
  else (lines, current_line).

(** The body of [for sentence in sentences], on the local [lines]. *)
Definition add_sentence (lines : list str) (sentence : str) : list str :=
  let sentence := strip sentence in
  if nonempty sentence && (15 <? length sentence)%nat then
    let words := split_ws sentence in
    let '(lines, current_line) := fold_left add_word words (lines, []) in
    if nonempty_list current_line then lines ++ [join (lit " ") current_line]
    else lines
  else if nonempty sentence then lines ++ [sentence]
  else lines.

Definition sentences (original_content : str) : list str :=
  split NL
    (replace "?" (lit "?" ++ [NL])
       (replace "!" (lit "!" ++ [NL])
          (replace "." (lit "." ++ [NL]) original_content))).

(** The local [lines] after the first loop. *)
Definition lines_of (original_content : str) : list str :=
  fold_left add_sentence (sentences original_content) [].

(** The body of [for i, line in enumerate(lines)], on the local
    [formatted_lines]. *)
Definition add_spaced (lines : list str) (formatted_lines : list str)
    (il : nat * str) : list str :=
  let '(i, line) := il in
  let formatted_lines := formatted_lines ++ [line] in
  if ((Z.of_nat i + 1) mod 2 =? 0) && (Z.of_nat i <? Z.of_nat (length lines) - 1)
  then formatted_lines ++ [[]]
  else formatted_lines.

Definition enumerate {A} (l : list A) : list (nat * A) :=
  zip (seq 0 (length l)) l.

(** The local [formatted_lines] when the function returns. *)
Definition formatted_lines (original_content : str) : list str :=
  let lines := lines_of original_content in
  fold_left (add_spaced lines) (enumerate lines) [].

Definition format_linkedin_post_correctly (original_content : str) : str :=
  lit "CORRECTLY FORMATTED VERSION:" ++ [NL; NL] ++
  join [NL] (formatted_lines original_content).

(** *** validate_linkedin_formatting *)

Import EngagementChecks.

Definition long_lines (lines : list str) : list str :=
  List.filter (fun line => (80 <? length line)%nat && nonempty (strip line))
              lines.

Definition empty_lines (lines : list str) : list nat :=
  map fst (List.filter (fun il => negb (nonempty (strip il.2)))
                       (enumerate lines)).

Definition cta_indicators : list str :=
  [lit "?"; lit "comment"; lit "share"; lit "thoughts"; lit "experience";
   lit "story"].

Definition has_cta (content : str) : bool :=
  any (fun indicator => contains indicator (lower content)) cta_indicators.

Definition line_lengths_ok (content : str) : bool :=
  negb (2 <? length (long_lines (split NL content)))%nat.

Definition hook_ok (content : str) : bool :=
  match split NL content with
  | [] => false
  | line0 :: _ => (length line0 <? 60)%nat
  end.

Definition spacing_ok (content : str) : bool :=
  (2 <=? length (empty_lines (split NL content)))%nat.

Definition has_ps (content : str) : bool :=
  contains (lit "PS:") content || contains (lit "P.S.") content.

Definition within_limit (content : str) : bool :=
  (length content <=? 2500)%nat.

Definition ok_lines :=
  lit "✅ Good line length - thoughts broken into digestible pieces".
Definition ko_lines :=
  lit "❌ Too many long lines. Break thoughts into shorter lines (max 80 chars)".
Definition ok_hook :=
  lit "✅ Strong hook - first line is concise and impactful".
Definition ko_hook :=
  lit "❌ Hook too long - first line should be under 60 characters".
Definition ok_spacing := lit "✅ Good use of white space between sections".
Definition ko_spacing :=
  lit "❌ Need more white space - add empty lines between sections".
Definition ok_cta := lit "✅ Clear call-to-action present".
Definition ko_cta :=
  lit "❌ Missing call-to-action - add questions or engagement prompts".
Definition ok_ps := lit "✅ PS section included".
Definition ko_ps :=
  lit "❌ Missing PS section - add postscript for extra engagement".
Definition ok_limit := lit "✅ Under 2,500 character limit".
Definition ko_limit :=
  lit "❌ Over 2,500 character limit - needs to be shortened".

(** The locals [score] and [feedback] after the six checks. *)
Definition run_validation (content : str) : Z * list str :=
  let st := (0, []) in
  let st := check (line_lengths_ok content) 20 ok_lines ko_lines st in
  let st := check (hook_ok content) 20 ok_hook ko_hook st in
  let st := check (spacing_ok content) 15 ok_spacing ko_spacing st in
  let st := check (has_cta content) 20 ok_cta ko_cta st in
  let st := check (has_ps content) 15 ok_ps ko_ps st in
  let st := check (within_limit content) 10 ok_limit ko_limit st in
  st.

Definition formatting_score (content : str) : Z := (run_validation content).1.
Definition formatting_feedback (content : str) : list str :=
  (run_validation content).2.

Definition validate_linkedin_formatting (content : str) : str :=
  lit "Formatting Score: " ++ str_of_Z (formatting_score content) ++
  lit "/100" ++ [NL; NL] ++ lit "Formatting Analysis:" ++ [NL] ++
  join [NL] (formatting_feedback content).

End WebUiServer.

(** ** web_ui_server.py: the other tools

    [analyze_post_length] and [suggest_hashtags] are also the ones of
    app.py, and [suggest_hashtags], [calculate] and [get_weather] the ones
    of streamlit_ui.py, character for character. *)
Module WebUiServerTools.
Import Py.

(** [analyze_post_length], with the three messages of app.py. *)
Definition analyze_post_length (content : str) : str :=
  let length := List.length content in
  if (length <? 300)%nat then App.too_short length
  else if (length <=? 2500)%nat then App.perfect_length length
  else App.too_long length.

Definition general_hashtags : list str :=
  [lit "#LinkedIn"; lit "#Professional"; lit "#Career"; lit "#Business";
   lit "#Growth"].

Definition industry_hashtags : gmap str (list str) :=
  list_to_map
    [(lit "tech",
      [lit "#Technology"; lit "#Innovation"; lit "#AI"; lit "#Software";
       lit "#TechTrends"]);
     (lit "marketing",
      [lit "#Marketing"; lit "#DigitalMarketing"; lit "#ContentMarketing";
       lit "#Branding"; lit "#SocialMedia"]);
     (lit "leadership",
      [lit "#Leadership"; lit "#Management"; lit "#TeamBuilding";
       lit "#ExecutiveCoaching"; lit "#WorkplaceCulture"]);
     (lit "entrepreneurship",
      [lit "#Entrepreneur"; lit "#Startup"; lit "#SmallBusiness";
       lit "#Innovation"; lit "#BusinessGrowth"]);
     (lit "finance",
      [lit "#Finance"; lit "#Investing"; lit "#FinTech"; lit "#Banking";
       lit "#Economics"]);
     (lit "sales",
      [lit "#Sales"; lit "#B2B"; lit "#CustomerSuccess";
       lit "#SalesStrategy"; lit "#Networking"])].

(** The local [suggested] after the four topic rules. *)
Definition suggested (topic : str) : list str :=
  let topic_lower := lower topic in
  let suggested := [] in
  let suggested :=
    (if contains (lit "learn") topic_lower
        || contains (lit "education") topic_lower
     then suggested ++
          [lit "#Learning"; lit "#ProfessionalDevelopment"; lit "#SkillBuilding"]
     else suggested) in
  let suggested :=
    (if contains (lit "success") topic_lower
        || contains (lit "achievement") topic_lower
     then suggested ++ [lit "#Success"; lit "#Achievement"; lit "#Goals"]
     else suggested) in
  let suggested :=
    (if contains (lit "team") topic_lower
        || contains (lit "collaboration") topic_lower
     then suggested ++
          [lit "#Teamwork"; lit "#Collaboration"; lit "#TeamSuccess"]
     else suggested) in
  let suggested :=
    (if contains (lit "tip") topic_lower
        || contains (lit "advice") topic_lower
     then suggested ++ [lit "#Tips"; lit "#Advice"; lit "#BestPractices"]
     else suggested) in
  suggested.

(** The local [final_hashtags] when the function returns. *)
Definition final_hashtags (topic industry : str) : list str :=
  let final_hashtags := [] in
  let final_hashtags :=
    final_hashtags ++
    take 2 (default [] (industry_hashtags !! lower industry)) in
  let final_hashtags := final_hashtags ++ take 2 (suggested topic) in
  let final_hashtags := final_hashtags ++ take 1 general_hashtags in
  take 5 (dict_fromkeys final_hashtags).

Definition suggest_hashtags (topic industry : str) : str :=
  lit "Recommended hashtags: " ++ join (lit " ") (final_hashtags topic industry).

(** *** calculate *)

Definition allowed_chars : str := lit "0123456789+-*/.()".

(** [c in allowed_chars or c.isspace()] *)
Definition allowed (c : ascii) : bool := elem_char c allowed_chars || is_space c.

Definition only_basic_operations : str :=
  lit "Error: Only basic mathematical operations are allowed".

Section Calculate.

(** The builtin [eval] with the formatting of its value: the text of the
    value, or the text of the exception that evaluation or formatting
    raises (an [Exception], which the [except] clause catches). *)
Variable eval : str -> str + str.

Definition calculate (expression : str) : str :=
  if negb (forallb allowed expression) then only_basic_operations
  else match eval expression with
       | inl result => lit "Result: " ++ result
       | inr e =>
           lit "Error calculating '" ++ expression ++ lit "': " ++ e
       end.

End Calculate.

(** *** get_weather *)

(** The degree sign, U+00B0. *)
Definition degree : ascii := "176"%char.

Definition mock_weather : gmap str str :=
  list_to_map
    [(lit "new york", lit "Sunny, 22" ++ [degree] ++ lit "C");
     (lit "london", lit "Cloudy, 15" ++ [degree] ++ lit "C");
     (lit "tokyo", lit "Rainy, 18" ++ [degree] ++ lit "C");
     (lit "paris", lit "Partly cloudy, 19" ++ [degree] ++ lit "C");
     (lit "sydney", lit "Sunny, 25" ++ [degree] ++ lit "C")].

Definition get_weather (city : str) : str :=
  let city_lower := lower city in
  match mock_weather !! city_lower with
  | Some weather => lit "Weather in " ++ city ++ lit ": " ++ weather
  | None =>
      lit "Weather data not available for " ++ city ++
      lit " (this is a mock implementation)"
  end.

End WebUiServerTools.

(** ** web_ui_server.py: agents, connections and the chat handler *)
Module WebUiServerChat.
Import Py.

(** The agents of the module, and the attribute [name] of each. *)
Inductive Agent : Set :=
  | math_agent | weather_agent | time_agent | linkedin_agent
  | triage_agent | simple_agent.

Definition name (agent : Agent) : str :=
  match agent with
  | math_agent => lit "Math Specialist"
  | weather_agent => lit "Weather Specialist"
  | time_agent => lit "Time Keeper"
  | linkedin_agent => lit "LinkedIn Reformatter"
  | triage_agent => lit "Assistant Coordinator"
  | simple_agent => lit "Personal Assistant"
  end.

Definition AGENTS : gmap str Agent :=
  list_to_map
    [(lit "simple", simple_agent); (lit "advanced", triage_agent);
     (lit "math", math_agent); (lit "weather", weather_agent);
     (lit "time", time_agent); (lit "linkedin", linkedin_agent)].

(** A websocket object; objects are compared by identity. *)
Definition WebSocket : Set := nat.

(** An entry of a conversation: [{"role": ..., "content": ...}]. *)
Record Entry : Set := { role : str; content : str }.

Record ConnectionManager : Type := {
  active_connections : list WebSocket;
  conversation_history : gmap str (list Entry)
}.

(** [ConnectionManager()] *)
Definition new_manager : ConnectionManager :=
  {| active_connections := []; conversation_history := ∅ |}.

(** [connect], after the websocket is accepted. *)
Definition connect (self : ConnectionManager) (websocket : WebSocket)
    (session_id : str) : ConnectionManager :=
  let active := active_connections self ++ [websocket] in
  match conversation_history self !! session_id with
  | None =>
      {| active_connections := active;
         conversation_history := <[session_id := []]> (conversation_history self) |}
  | Some _ =>
      {| active_connections := active;
         conversation_history := conversation_history self |}
  end.

(** [disconnect]; [None] is the [ValueError] of [list.remove]. *)
Definition disconnect (self : ConnectionManager) (websocket : WebSocket)
    : option ConnectionManager :=
  if decide (websocket ∈ active_connections self) then
    match remove websocket (active_connections self) with
    | Some active =>
        Some {| active_connections := active;
                conversation_history := conversation_history self |}
    | None => None
    end
  else Some self.

(** [manager.conversation_history[session_id].append(entry)]; [None] is
    the [KeyError] of a session that is not in the dictionary. *)
Definition history_append (self : ConnectionManager) (session_id : str)
    (entry : Entry) : option ConnectionManager :=
  match conversation_history self !! session_id with
  | Some history =>
      Some {| active_connections := active_connections self;
              conversation_history :=
                <[session_id := history ++ [entry]]> (conversation_history self) |}
  | None => None
  end.

(** The exceptions of the handler: a missing key, or what the run of an
    agent raises, with its text. *)
Inductive Exn : Type :=
  | KeyError (key : str)
  | RunError (text : str).

(** What [send_message] sends: [{"type": "thinking"}], [{"type":
    "response", "message": ..., "agent_name": ...}] or [{"type": "error",
    "message": str(e)}]. *)
Inductive Sent : Type :=
  | thinking
  | response (message agent_name : str)
  | error (e : Exn).

(** The handler from a received message to the run of the agent.  The
    message is the parsed JSON object, here with text values only. *)
Inductive Received : Type :=
  | ignored
  | raised (e : Exn)
  | running (self : ConnectionManager) (agent : Agent) (content : str).

Definition receive (self : ConnectionManager) (session_id : str)
    (message_data : gmap str str) : Received :=
  match message_data !! lit "type" with
  | None => raised (KeyError (lit "type"))
  | Some type =>
      if decide (type = lit "message") then
        match message_data !! lit "content" with
        | None => raised (KeyError (lit "content"))
        | Some content =>
            let agent_type := default (lit "simple") (message_data !! lit "agent") in
            match history_append self session_id
                    {| role := lit "user"; content := content |} with
            | None => raised (KeyError session_id)
            | Some self =>
                let agent := default simple_agent (AGENTS !! agent_type) in
                running self agent content
            end
        end
      else ignored
  end.

(** The handler after the run of the agent: [result] is the final output
    of the run, or the exception it raised. *)
Definition reply (self : ConnectionManager) (session_id : str)
    (agent : Agent) (result : str + Exn) : ConnectionManager * Sent :=
  match result with
  | inl output =>
      match history_append self session_id
              {| role := lit "assistant"; content := output |} with
      | Some self => (self, response output (name agent))
      | None => (self, error (KeyError session_id))
      end
  | inr e => (self, error e)
  end.

(** One turn of the loop of [websocket_endpoint] for a received message,
    when no other connection runs in between: the manager afterwards, what
    was sent, and the exception that ends the handler, if any. *)
Definition on_message (run : Agent -> str -> str + Exn)
    (self : ConnectionManager) (session_id : str)
    (message_data : gmap str str)
    : ConnectionManager * list Sent * option Exn :=
  match receive self session_id message_data with
  | ignored => (self, [], None)
  | raised e => (self, [], Some e)
  | running self agent content =>
      let '(self, sent) := reply self session_id agent (run agent content) in
      (self, [thinking; sent], None)
  end.

(** The loop of [websocket_endpoint] over the messages that arrive before
    the client disconnects; it ends when a message raises. *)
Fixpoint serve (run : Agent -> str -> str + Exn) (self : ConnectionManager)
    (session_id : str) (incoming : list (gmap str str))
    : ConnectionManager * list Sent * option Exn :=
  match incoming with
  | [] => (self, [], None)
  | message_data :: incoming =>
      let '(self, sent, exn) := on_message run self session_id message_data in
      match exn with
      | Some e => (self, sent, Some e)
      | None =>
          let '(self, sent', exn) := serve run self session_id incoming in
          (self, sent ++ sent', exn)
      end
  end.

(** [websocket_endpoint] for one connection served without another one
    in between: [incoming] are the messages received until
    [receive_text] raises [WebSocketDisconnect], which is the only
    exception that the function handles. *)
Definition websocket_endpoint (run : Agent -> str -> str + Exn)
    (self : ConnectionManager) (websocket : WebSocket) (session_id : str)
    (incoming : list (gmap str str))
    : ConnectionManager * list Sent * option Exn :=
  let self := connect self websocket session_id in
  let '(self, sent, exn) := serve run self session_id incoming in
  match exn with
  | None => (default self (disconnect self websocket), sent, None)
  | Some e => (self, sent, Some e)
  end.

(** The steps that the connections of a server take, each between two
    points where another connection may run. *)
Inductive Step : Type :=
  | do_connect (websocket : WebSocket) (session_id : str)
  | do_disconnect (websocket : WebSocket)
  | do_receive (session_id : str) (message_data : gmap str str)
  | do_reply (session_id : str) (agent : Agent) (result : str + Exn).

Definition step (self : ConnectionManager) (s : Step) : ConnectionManager :=
  match s with
  | do_connect websocket session_id => connect self websocket session_id
  | do_disconnect websocket => default self (disconnect self websocket)
  | do_receive session_id message_data =>
      match receive self session_id message_data with
      | running self _ _ => self
      | _ => self
      end
  | do_reply session_id agent result => (reply self session_id agent result).1
  end.

End WebUiServerChat.

(** ** app.py: agents and the chat endpoint *)
Module AppChat.

Inductive Agent : Set := linkedin_agent | simple_agent.

Definition name (agent : Agent) : str :=
  match agent with
  | linkedin_agent => lit "LinkedIn Reformatter"
  | simple_agent => lit "Personal Assistant"
  end.

Definition AGENTS : gmap str Agent :=
  list_to_map [(lit "simple", simple_agent); (lit "linkedin", linkedin_agent)].

Record ChatRequest : Set := { message : str; agent : str }.

(** What the endpoint gives: a [ChatResponse], or the raised
    [HTTPException]. *)
Inductive Answer : Set :=
  | ChatResponse (response agent_name : str)
  | HTTPException (status_code : Z) (detail : str).

(** [run] is the run of an agent: its final output, or the text of the
    exception it raises. *)
Definition chat_with_agent (run : Agent -> str -> str + str)
    (request : ChatRequest) : Answer :=
  let agent := default simple_agent (AGENTS !! agent request) in
  match run agent (message request) with
  | inl response => ChatResponse response (name agent)
  | inr e => HTTPException 500 e
  end.

End AppChat.

(** ** Vocabulary of the specification *)

(** [needle] occurs in [hay] as a contiguous substring. *)
Definition substring (needle hay : str) : Prop :=
  exists before after, hay = before ++ needle ++ after.

(** Case-insensitive occurrence. *)
Definition substring_ci (needle hay : str) : Prop :=
  substring (Py.lower needle) (Py.lower hay).

(** The hashtag recommendation as the specification words it (4.2, steps
    1 to 3): the topic keyword rules in declared order, each with its
    triggers and its hashtags; the hashtags of all rules with a trigger in
    the lower-cased topic; the first 2 entries of the industry catalog,
    then the first 2 topic-matched hashtags, then the first general
    hashtag. *)
Module HashtagSpec.
Import LinkedinAgentExample.

Definition topic_keyword_rules : list (list str * list str) :=
  [ ([lit "learn"; lit "education"], learning_tags);
    ([lit "success"; lit "achievement"], success_tags);
    ([lit "team"; lit "collaboration"], team_tags);
    ([lit "tip"; lit "advice"], tip_tags) ].

Definition rule_matches (topic : str) (rule : list str * list str) : bool :=
  existsb (fun trigger => Py.contains trigger (Py.lower topic)) rule.1.

Definition topic_matched (topic : str) : list str :=
  flat_map (fun rule => if rule_matches topic rule then rule.2 else [])
           topic_keyword_rules.

Definition catalog_entry (industry : str) : list str :=
  default [] (industry_hashtags !! Py.lower industry).

Definition recommended (topic industry : str) : list str :=
  take 2 (catalog_entry industry) ++ take 2 (topic_matched topic) ++
  take 1 general_hashtags.

End HashtagSpec.

(** A word: a non-empty run of characters without whitespace. *)
Definition word (w : str) : Prop :=
  w <> [] /\ Forall (fun c => Py.is_space c = false) w.

(** The text with the line break that the reflow formatter forces after
    every '.', '!' and '?'. *)
Definition with_breaks (original_content : str) : str :=
  Py.replace "?" (lit "?" ++ [NL])
    (Py.replace "!" (lit "!" ++ [NL])
       (Py.replace "." (lit "." ++ [NL]) original_content)).

(** The words of the fragments that the formatter works on. *)
Definition fragment_words (original_content : str) : list str :=
  Py.split_ws (with_breaks original_content).

(** The non-empty output lines of the reflow formatter, joined by single
    spaces. *)
Definition rejoined (original_content : str) : str :=
  Py.join (lit " ")
    (List.filter Py.nonempty (WebUiServer.formatted_lines original_content)).

(** Whitespace normalization: runs of whitespace become one space, and
    leading and trailing whitespace goes. *)
Definition normalize_ws (s : str) : str := Py.join (lit " ") (Py.split_ws s).

(** The characters of a text that are not whitespace. *)
Definition non_space (s : str) : str :=
  List.filter (fun c => negb (Py.is_space c)) s.

(** The words held by the state of the word loop of the formatter: those
    of the lines already emitted, then the running line. *)
Definition held (st : list str * list str) : list str :=
  concat (map Py.split_ws st.1) ++ st.2.

(** An emitted line is fine when it has at most 15 characters or is one
    of the words [W]; the running line is fine when it joins to at most 15
    characters or holds a single word of [W]. *)
Definition line_ok (W : str -> Prop) (line : str) : Prop :=
  (length line <= 15)%nat \/ W line.

Definition running_ok (W : str -> Prop) (current_line : list str) : Prop :=
  (length (Py.join (lit " ") current_line) <= 15)%nat \/
  exists w, current_line = [w] /\ W w.

(** A word of the fragments of a text. *)
Definition fragment_word (original_content w : str) : Prop :=
  word w /\ w ∈ fragment_words original_content.

(** A text with a word of more than 15 characters, and that word. *)
Definition long_word : str := lit "averyveryverylongwordindeed".
Definition long_word_text : str := lit "Look: averyveryverylongwordindeed and more".

(** Lookup in the list of the items of a dictionary literal. *)
Fixpoint assoc {V} (items : list (str * V)) (key : str) : option V :=
  match items with
  | [] => None
  | (k, v) :: items => if decide (k = key) then Some v else assoc items key
  end.

(** Lines with a blank line after every second one, but not at the end. *)
Fixpoint spaced (lines : list str) : list str :=
  match lines with
  | a :: b :: rest =>
      match rest with
      | [] => [a; b]
      | _ :: _ => a :: b :: [] :: spaced rest
      end
  | _ => lines
  end.

(** A decimal digit. *)
Definition is_digit (c : ascii) : bool :=
  let n := N_of_ascii c in ((48 <=? n) && (n <=? 57))%N.

(** A received message that the chat handler can read: it has a type, and
    a content when the type is "message". *)
Definition readable (message_data : gmap str str) : Prop :=
  is_Some (message_data !! lit "type") /\
  (message_data !! lit "type" = Some (lit "message") ->
   is_Some (message_data !! lit "content")).

(** What a check contributes to the score. *)
Definition points (passed : bool) (weight : Z) : Z :=
  if passed then weight else 0.

(** The lines of a text, and its blank lines. *)
Definition text_lines (content : str) : list str := Py.split NL content.

Definition blank (line : str) : Prop := Py.strip line = [].

(** The first line of what the reflow formatter returns. *)
Definition heading : str := lit "CORRECTLY FORMATTED VERSION:".

(** The lines of the text that the reflow formatter returns, after the
    heading. *)
Definition body_lines (original_content : str) : list str :=
  tail (text_lines (WebUiServer.format_linkedin_post_correctly original_content)).

(** The non-empty lines of the returned text after the heading, joined by
    single spaces; and the same with the heading. *)
Definition rejoined_body (original_content : str) : str :=
  Py.join (lit " ") (List.filter Py.nonempty (body_lines original_content)).

Definition rejoined_text (original_content : str) : str :=
  Py.join (lit " ")
    (List.filter Py.nonempty
       (text_lines (WebUiServer.format_linkedin_post_correctly original_content))).

(** A string without a line break. *)
Definition one_line (s : str) : Prop :=
  Forall (fun c => Ascii.eqb NL c = false) s.

(** The premises of the validator example of the specification: exactly
    one line of more than 80 characters, a first line of 70 characters, no
    blank line, no call-to-action indicator, no postscript marker, 3000
    characters in all. *)
Record one_long_line (content : str) : Prop := {
  oll_long :
    length (List.filter (fun line => (80 <? length line)%nat)
                        (text_lines content)) = 1%nat;
  oll_first :
    exists first rest,
      text_lines content = first :: rest /\ length first = 70%nat;
  oll_no_blank : forall line, line ∈ text_lines content -> ~ blank line;
  oll_no_cta :
    forall indicator,
      indicator ∈ WebUiServer.cta_indicators ->
      ~ substring indicator (Py.lower content);
  oll_no_ps :
    ~ substring (lit "PS:") content /\ ~ substring (lit "P.S.") content;
  oll_length : length content = 3000%nat
}.

(** A text with these properties: a line of 70 characters, a line of 90,
    thirty-five lines of 80 and a last line of 3. *)
Definition one_long_line_text : str :=
  repeat "a"%char 70 ++ [NL] ++ repeat "a"%char 90 ++ [NL] ++
  concat (repeat (repeat "a"%char 80 ++ [NL]) 35) ++ repeat "a"%char 3.

(** A text of 1500 characters that passes every engagement check. *)
Definition engaging_text : str :=
  lit "I learned a tip?" ++ [NL; NL] ++ repeat "a"%char 1482.

(** A text that passes every formatting check. *)
Definition well_formatted_text : str :=
  lit "Any thoughts?" ++ [NL; NL; NL] ++ lit "PS: thanks".

(** * Properties *)

(** ** The string builtins *)
Section Builtins.
Import Py.

Lemma startswith_spec p s :
  startswith p s = true <-> exists after, s = p ++ after.
Proof.
  revert s; induction p as [|a p IH]; intros s; simpl.
  - split; [intros _; by exists s | done].
  - destruct s as [|b s].
    + split; [done | intros [after H]; discriminate].
    + rewrite andb_true_iff, IH. split.
      * intros [Hab [after ->]]. apply Ascii.eqb_eq in Hab as ->.
        by exists after.
      * intros [after H]. injection H as -> ->. split.
        -- apply Ascii.eqb_refl.
        -- by exists after.
Qed.

Lemma contains_spec needle hay :
  contains needle hay = true <-> substring needle hay.
Proof.
  unfold substring. induction hay as [|c hay IH]; simpl.
  - rewrite orb_false_r, startswith_spec. split.
    + intros [after H]. by exists [], after.
    + intros (before & after & H).
      destruct before; [by exists after |discriminate].
  - rewrite orb_true_iff, startswith_spec, IH. split.
    + intros [[after H] | (before & after & H)].
      * by exists [], after.
      * exists (c :: before), after. by rewrite H.
    + intros (before & after & H). destruct before as [|b before].
      * left. by exists after.
      * right. injection H as _ H. by exists before, after.
Qed.

Lemma contains_false needle hay :
  contains needle hay = false <-> ~ substring needle hay.
Proof.
  rewrite <- contains_spec. by destruct (contains needle hay).
Qed.



Lemma lower_char_idemp c : lower_char (lower_char c) = lower_char c.
Proof. by destruct c as [[] [] [] [] [] [] [] []]. Qed.

Lemma lower_idemp s : lower (lower s) = lower s.
Proof.
  unfold lower. rewrite map_map. apply map_ext, lower_char_idemp.
Qed.

Lemma any_true {A} (f : A -> bool) l :
  any f l = true <-> exists x, x ∈ l /\ f x = true.
Proof.
  unfold any. rewrite existsb_exists. by setoid_rewrite list_elem_of_In.
Qed.

Lemma any_false {A} (f : A -> bool) l :
  any f l = false <-> forall x, x ∈ l -> f x = false.
Proof.
  unfold any. rewrite <- not_true_iff_false, existsb_exists.
  setoid_rewrite <- list_elem_of_In. split.
  - intros H x Hx. apply not_true_iff_false. intros Hf. apply H. eauto.
  - intros H (x & Hx & Hf). rewrite (H x Hx) in Hf. discriminate.
Qed.

End Builtins.

(** ** Length classifier *)
Section LengthClassifier.

Lemma app_labels_distinct n :
  App.too_short n <> App.perfect_length n /\
  App.too_short n <> App.too_long n /\
  App.perfect_length n <> App.too_long n.
Proof.
  unfold App.too_short, App.perfect_length, App.too_long.
  repeat split; intros H; do 2 apply app_inv_head in H; discriminate.
Qed.

Lemma streamlit_labels_distinct n :
  StreamlitUi.too_short n <> StreamlitUi.short n /\
  StreamlitUi.too_short n <> StreamlitUi.optimal_length n /\
  StreamlitUi.too_short n <> StreamlitUi.too_long n /\
  StreamlitUi.short n <> StreamlitUi.optimal_length n /\
  StreamlitUi.short n <> StreamlitUi.too_long n /\
  StreamlitUi.optimal_length n <> StreamlitUi.too_long n.
Proof.
  unfold StreamlitUi.too_short, StreamlitUi.short,
    StreamlitUi.optimal_length, StreamlitUi.too_long.
  repeat split; intros H; do 2 apply app_inv_head in H; discriminate.
Qed.

Example scheme_A_boundaries :
  map (fun n => App.analyze_post_length (repeat "a"%char n))
      [0; 299; 300; 2500; 2501]%nat =
  [App.too_short 0; App.too_short 299; App.perfect_length 300;
   App.perfect_length 2500; App.too_long 2501].
Proof. by vm_compute. Qed.

Example scheme_B_boundaries :
  map (fun n => StreamlitUi.analyze_post_length (repeat "a"%char n))
      [0; 299; 300; 1299; 1300; 3000; 3001]%nat =
  [StreamlitUi.too_short 0; StreamlitUi.too_short 299; StreamlitUi.short 300;
   StreamlitUi.short 1299; StreamlitUi.optimal_length 1300;
   StreamlitUi.optimal_length 3000; StreamlitUi.too_long 3001].
Proof. by vm_compute. Qed.

Example scheme_A_message :
  App.analyze_post_length (lit "Hello LinkedIn") =
  lit "Post is 14 characters - TOO SHORT. LinkedIn posts should be under 2,500 characters but with substantial content.".
Proof. reflexivity. Qed.

(** C5.  [analyze_post_length] of app.py returns the "too short" message
    exactly for lengths below 300, the "perfect length" message exactly
    for lengths from 300 to 2500, and the "too long" message exactly for
    lengths above 2500 (Scheme A); the one of streamlit_ui.py returns
    "too short" exactly below 300, "short" exactly from 300 to 1299,
    "optimal length" exactly from 1300 to 3000 and "too long" exactly
    above 3000 (Scheme B). *)
Theorem analyze_post_length_schemes (content : str) :
  (App.analyze_post_length content = App.too_short (length content)
     <-> (length content < 300)%nat) /\
  (App.analyze_post_length content = App.perfect_length (length content)
     <-> (300 <= length content <= 2500)%nat) /\
  (App.analyze_post_length content = App.too_long (length content)
     <-> (2500 < length content)%nat) /\
  (StreamlitUi.analyze_post_length content
     = StreamlitUi.too_short (length content)
     <-> (length content < 300)%nat) /\
  (StreamlitUi.analyze_post_length content
     = StreamlitUi.short (length content)
     <-> (300 <= length content < 1300)%nat) /\
  (StreamlitUi.analyze_post_length content
     = StreamlitUi.optimal_length (length content)
     <-> (1300 <= length content <= 3000)%nat) /\
  (StreamlitUi.analyze_post_length content
     = StreamlitUi.too_long (length content)
     <-> (3000 < length content)%nat).
Proof.
  pose proof (app_labels_distinct (length content)) as (A1 & A2 & A3).
  pose proof (streamlit_labels_distinct (length content))
    as (B1 & B2 & B3 & B4 & B5 & B6).
  unfold App.analyze_post_length, StreamlitUi.analyze_post_length. cbv zeta.
  destruct (Nat.ltb_spec (length content) 300);
    destruct (Nat.leb_spec (length content) 2500);
    destruct (Nat.ltb_spec (length content) 1300);
    destruct (Nat.leb_spec (length content) 3000);
    try lia; repeat split; intros; try lia; try congruence.
Qed.

End LengthClassifier.

(** ** Engagement scorer *)
Section Engagement.
Import Py EngagementChecks.

Lemma check_fst cond pts ok ko st :
  (check cond pts ok ko st).1 = st.1 + points cond pts.
Proof. destruct cond; simpl; lia. Qed.

Lemma check_snd cond pts ok ko st :
  (check cond pts ok ko st).2 = st.2 ++ [if cond then ok else ko].
Proof. by destruct cond. Qed.

(** The score is the sum of the weights of the checks that pass. *)
Lemma score_sum content :
  score content =
    points (has_question content) 20 + points (has_personal content) 25 +
    points (has_action content) 20 + points (has_paragraphs content) 15 +
    points (has_optimal_length content) 20.
Proof. unfold score, run_checks. rewrite !check_fst. simpl. lia. Qed.


Lemma has_personal_spec content :
  has_personal content = true <->
  exists phrase, phrase ∈ personal_indicators /\ substring_ci phrase content.
Proof.
  unfold has_personal. rewrite any_true.
  by setoid_rewrite contains_spec.
Qed.



Lemma level_high content : level content = lit "HIGH" <-> 80 <= score content.
Proof.
  unfold level, level_of.
  destruct (Z.leb_spec 80 (score content)); [done|].
  split; [|lia]. by repeat case_match.
Qed.

Example engagement_of_empty_text :
  LinkedinAgentExample.check_engagement_potential [] =
  lit "Engagement Score: 0/100 (LOW)" ++ [NL; NL] ++ lit "Feedback:" ++ [NL] ++
  ko_question ++ [NL] ++ ko_personal ++ [NL] ++ ko_action ++ [NL] ++
  ko_paragraphs ++ [NL] ++ ko_length.
Proof. by vm_compute. Qed.

Example engagement_case_insensitive :
  score (lit "WHEN I TRIED THIS METHOD, DID IT WORK?") = 65.
Proof. by vm_compute. Qed.



(** C9.  Whenever the reported level is HIGH, the score is at least 80
    and the personal experience check passed: one of the phrases
    "I learned", "My experience", "When I", "I discovered",
    "I realized" occurs in the text up to case; the other four weights
    add up to 75 only. *)
Theorem high_needs_personal (content : str) :
  level content = lit "HIGH" ->
  80 <= score content /\
  20 + 20 + 15 + 20 = 75 /\
  has_personal content = true /\
  exists phrase,
    phrase ∈ [lit "I learned"; lit "My experience"; lit "When I";
              lit "I discovered"; lit "I realized"] /\
    substring_ci phrase content.
Proof.
  intros H%level_high. split; [done|]. split; [done|].
  assert (has_personal content = true) as Hp.
  { rewrite score_sum in H. destruct (has_personal content); [done|].
    unfold points in H. repeat case_match; lia. }
  split; [done|]. by apply has_personal_spec.
Qed.

Lemma high_needs_personal_witness :
  level engaging_text = lit "HIGH" /\
  exists phrase,
    phrase ∈ personal_indicators /\ substring_ci phrase engaging_text.
Proof.
  assert (level engaging_text = lit "HIGH") as H
    by (vm_compute; reflexivity).
  split; [exact H|]. apply (high_needs_personal engaging_text H).
Defined.

End Engagement.

(** ** Formatting validator *)
Section Validator.
Import Py EngagementChecks WebUiServer.

(** The formatting score is the sum of the weights of the checks that
    pass. *)
Lemma formatting_score_sum content :
  formatting_score content =
    points (line_lengths_ok content) 20 + points (hook_ok content) 20 +
    points (spacing_ok content) 15 + points (has_cta content) 20 +
    points (has_ps content) 15 + points (within_limit content) 10.
Proof.
  unfold formatting_score, run_validation. rewrite !check_fst. simpl. lia.
Qed.

Lemma formatting_feedback_entries content :
  formatting_feedback content =
    [ if line_lengths_ok content then ok_lines else ko_lines;
      if hook_ok content then ok_hook else ko_hook;
      if spacing_ok content then ok_spacing else ko_spacing;
      if has_cta content then ok_cta else ko_cta;
      if has_ps content then ok_ps else ko_ps;
      if within_limit content then ok_limit else ko_limit ].
Proof. unfold formatting_feedback, run_validation. by rewrite !check_snd. Qed.

(** C4.  Both scores lie between 0 and 100 for every text: each is the
    sum of the weights of the checks that pass, the weights of the
    engagement scorer (20, 25, 20, 15, 20) and of the formatting
    validator (20, 20, 15, 20, 15, 10) add up to 100, and 100 is reached
    when every check passes. *)
Theorem scores_within_0_100 (content : str) :
  0 <= score content <= 100 /\
  0 <= formatting_score content <= 100 /\
  score content =
    points (has_question content) 20 + points (has_personal content) 25 +
    points (has_action content) 20 + points (has_paragraphs content) 15 +
    points (has_optimal_length content) 20 /\
  formatting_score content =
    points (line_lengths_ok content) 20 + points (hook_ok content) 20 +
    points (spacing_ok content) 15 + points (has_cta content) 20 +
    points (has_ps content) 15 + points (within_limit content) 10 /\
  score engaging_text = 100 /\
  formatting_score well_formatted_text = 100.
Proof.
  rewrite score_sum, formatting_score_sum. unfold points.
  repeat split; try (repeat case_match; lia); by vm_compute.
Qed.

Lemma filter_none {A} (f : A -> bool) l :
  (forall x, x ∈ l -> f x = false) -> List.filter f l = [].
Proof.
  induction l as [|x l IH]; [done|]. intros H. simpl.
  rewrite (H x) by (apply elem_of_cons; by left).
  apply IH. intros y Hy. apply H. apply elem_of_cons. by right.
Qed.

Lemma filter_and_length {A} (f g : A -> bool) l :
  (length (List.filter (fun x => f x && g x) l)
   <= length (List.filter f l))%nat.
Proof.
  induction l as [|x l IH]; [done|]. simpl.
  destruct (f x), (g x); simpl; lia.
Qed.

Lemma enumerate_snd {A} (l : list A) i x :
  (i, x) ∈ enumerate l -> x ∈ l.
Proof. unfold enumerate. apply elem_of_zip_r. Qed.

Lemma one_long_line_checks content :
  one_long_line content ->
  line_lengths_ok content = true /\ hook_ok content = false /\
  spacing_ok content = false /\ has_cta content = false /\
  has_ps content = false /\ within_limit content = false.
Proof.
  intros [Hlong (first & rest & Hlines & Hfirst) Hblank Hcta [Hps1 Hps2] Hlen].
  unfold text_lines in *. repeat split.
  - unfold line_lengths_ok, long_lines.
    pose proof (filter_and_length (fun line => (80 <? length line)%nat)
                  (fun line => nonempty (strip line)) (split NL content)).
    apply negb_true_iff, Nat.ltb_ge. lia.
  - unfold hook_ok. rewrite Hlines, Hfirst. done.
  - unfold spacing_ok, empty_lines. rewrite filter_none; [done|].
    intros [i line] Hin%enumerate_snd. simpl.
    specialize (Hblank line Hin). unfold blank in Hblank.
    by destruct (strip line).
  - apply any_false. intros indicator Hin.
    apply contains_false. by apply Hcta.
  - unfold has_ps. apply orb_false_iff. by rewrite !contains_false.
  - unfold within_limit. by rewrite Hlen.
Qed.

Lemma one_long_line_text_ok : one_long_line one_long_line_text.
Proof.
  split.
  - by vm_compute.
  - eexists _, _. split; [by vm_compute|]. by vm_compute.
  - intros line Hin. unfold blank.
    assert (forallb (fun line => nonempty (strip line))
                    (text_lines one_long_line_text) = true) as Hall
      by (by vm_compute).
    rewrite forallb_forall in Hall. apply list_elem_of_In, Hall in Hin.
    by destruct (strip line).
  - intros indicator Hin. apply contains_false.
    unfold cta_indicators in Hin.
    rewrite !elem_of_cons, elem_of_nil in Hin.
    repeat destruct Hin as [-> | Hin]; try done; by vm_compute.
  - split; apply contains_false; by vm_compute.
  - by vm_compute.
Qed.

Example validation_of_well_formatted_text :
  validate_linkedin_formatting well_formatted_text =
  lit "Formatting Score: 100/100" ++ [NL; NL] ++ lit "Formatting Analysis:" ++
  [NL] ++ ok_lines ++ [NL] ++ ok_hook ++ [NL] ++ ok_spacing ++ [NL] ++
  ok_cta ++ [NL] ++ ok_ps ++ [NL] ++ ok_limit.
Proof. by vm_compute. Qed.

(** C2, as the specification states it, fails: the text made of a line
    of 70 characters, a line of 90, thirty-five lines of 80 and a line
    of 3 has every stated property, and its formatting score is not 0. *)
Lemma one_long_line_score_not_0 :
  one_long_line one_long_line_text /\
  formatting_score one_long_line_text <> 0.
Proof. split; [apply one_long_line_text_ok | by vm_compute]. Qed.

(** C2, amended.  A text with exactly one line longer than 80
    characters, a first line of 70 characters, no blank line, no
    call-to-action indicator, no "PS:" or "P.S." and 3000 characters
    scores 20: the line length check passes, since it fails only from
    three long lines on, and the other five checks fail. *)
Theorem one_long_line_scores_20 (content : str) :
  one_long_line content ->
  formatting_score content = 20 /\
  formatting_feedback content =
    [ok_lines; ko_hook; ko_spacing; ko_cta; ko_ps; ko_limit].
Proof.
  intros (H1 & H2 & H3 & H4 & H5 & H6)%one_long_line_checks.
  rewrite formatting_score_sum, formatting_feedback_entries.
  by rewrite H1, H2, H3, H4, H5, H6.
Qed.

Lemma one_long_line_scores_20_witness :
  one_long_line one_long_line_text /\
  formatting_score one_long_line_text = 20.
Proof.
  split; [apply one_long_line_text_ok|].
  apply (one_long_line_scores_20 one_long_line_text one_long_line_text_ok).
Defined.

(** C8, as the specification states it, fails for the validator: on the
    empty text its score is not 0 and its feedback is not made of fail
    messages only. *)
Lemma empty_text_validator_not_all_fail :
  ~ (formatting_score [] = 0 /\
     formatting_feedback [] =
       [ko_lines; ko_hook; ko_spacing; ko_cta; ko_ps; ko_limit]).
Proof. intros [H _]. by vm_compute in H. Qed.

(** C8, amended.  On the empty text both functions run every check.
    Every check of the engagement scorer fails: the score is 0, the
    level LOW and the five feedback entries are the fail messages.  Of
    the formatting validator the line length, hook and character limit
    checks pass and the white space, call-to-action and postscript
    checks fail: the score is 50. *)
Theorem empty_text_reports :
  score [] = 0 /\ level [] = lit "LOW" /\
  feedback [] =
    [ko_question; ko_personal; ko_action; ko_paragraphs; ko_length] /\
  formatting_score [] = 50 /\
  formatting_feedback [] =
    [ok_lines; ok_hook; ko_spacing; ko_cta; ko_ps; ok_limit].
Proof. by vm_compute. Qed.

End Validator.

(** ** Hashtag recommender *)
Section Hashtags.
Import Py LinkedinAgentExample HashtagSpec.

Lemma dict_fromkeys_acc (l acc : list str) :
  NoDup (acc ++ l) ->
  fold_left (fun keys k => if decide (k ∈ keys) then keys else keys ++ [k])
            l acc = acc ++ l.
Proof.
  revert acc; induction l as [|x l IH]; intros acc Hnd; simpl.
  - by rewrite app_nil_r.
  - rewrite decide_False.
    + rewrite IH; rewrite <- app_assoc; done.
    + apply NoDup_app in Hnd as (_ & Hnd & _). intros Hx.
      apply (Hnd x Hx). apply elem_of_cons. by left.
Qed.

(** Without duplicates there is nothing to remove. *)
Lemma dict_fromkeys_NoDup_id (l : list str) : NoDup l -> dict_fromkeys l = l.
Proof. intros H. unfold dict_fromkeys. by rewrite dict_fromkeys_acc. Qed.

Lemma dict_fromkeys_acc_NoDup (l acc : list str) :
  NoDup acc ->
  NoDup (fold_left
           (fun keys k => if decide (k ∈ keys) then keys else keys ++ [k])
           l acc).
Proof.
  revert acc; induction l as [|x l IH]; intros acc Hnd; simpl; [done|].
  apply IH. case_decide; [done|].
  apply NoDup_app. split_and!; [done| |apply NoDup_singleton].
  intros y Hy Hy'%list_elem_of_singleton. by subst.
Qed.

Lemma dict_fromkeys_acc_elem (l acc : list str) x :
  x ∈ fold_left
        (fun keys k => if decide (k ∈ keys) then keys else keys ++ [k])
        l acc <-> x ∈ acc \/ x ∈ l.
Proof.
  revert acc; induction l as [|y l IH]; intros acc; simpl.
  - rewrite elem_of_nil. tauto.
  - rewrite IH, elem_of_cons. case_decide.
    + split; [tauto|]. intros [?|[->|?]]; tauto.
    + rewrite elem_of_app, list_elem_of_singleton. tauto.
Qed.

(** [dict.fromkeys] keeps every element once. *)
Lemma dict_fromkeys_sound (l : list str) :
  NoDup (dict_fromkeys l) /\ forall x, x ∈ dict_fromkeys l <-> x ∈ l.
Proof.
  split.
  - apply dict_fromkeys_acc_NoDup, NoDup_nil_2.
  - intros x. unfold dict_fromkeys. rewrite dict_fromkeys_acc_elem.
    rewrite elem_of_nil. tauto.
Qed.

(** The accumulator comes first; of the keys that follow, those not in
    it are added at their first occurrence. *)
Lemma dict_fromkeys_acc_filter (l acc : list str) :
  fold_left (fun keys k => if decide (k ∈ keys) then keys else keys ++ [k])
            l acc =
  acc ++ filter (fun k => k ∉ acc) (dict_fromkeys l).
Proof.
  unfold dict_fromkeys. revert acc.
  induction l as [|x l IH]; intros acc; [by rewrite app_nil_r|].
  cbn [fold_left].
  destruct (decide (x ∈ [])) as [Hnil%elem_of_nil|_]; [done|].
  rewrite (IH ([] ++ [x])), (IH (if decide (x ∈ acc) then acc else acc ++ [x])).
  cbn [app]. rewrite filter_cons. case_decide as Hx.
  - rewrite decide_False by tauto. f_equal.
    rewrite list_filter_filter. apply list_filter_iff. intros k.
    rewrite list_elem_of_singleton. split; [|tauto].
    intros Hk. split; [done|]. by intros ->.
  - rewrite decide_True by done. rewrite <- app_assoc. cbn [app].
    do 2 f_equal. rewrite list_filter_filter. apply list_filter_iff.
    intros k. rewrite elem_of_app, list_elem_of_singleton. tauto.
Qed.

(** [dict.fromkeys] keeps the first occurrence of each key. *)
Lemma dict_fromkeys_cons (x : str) (l : list str) :
  dict_fromkeys (x :: l) = x :: filter (fun k => k <> x) (dict_fromkeys l).
Proof.
  unfold dict_fromkeys at 1. cbn [fold_left].
  destruct (decide (x ∈ [])) as [Hnil%elem_of_nil|_]; [done|].
  rewrite dict_fromkeys_acc_filter. cbn [app]. f_equal.
  apply list_filter_iff. intros k. by rewrite list_elem_of_singleton.
Qed.

Example dict_fromkeys_first_seen :
  dict_fromkeys [lit "a"; lit "b"; lit "a"; lit "c"; lit "b"] =
  [lit "a"; lit "b"; lit "c"].
Proof. reflexivity. Qed.

(** The if-chain of the source collects what the rules of the
    specification collect. *)
Lemma suggested_topic_matched topic : suggested topic = topic_matched topic.
Proof.
  unfold suggested, topic_matched, topic_keyword_rules, rule_matches,
    extend_if.
  cbn [flat_map existsb fst snd]. rewrite !orb_false_r, !app_nil_r.
  by repeat case_match.
Qed.

(** The first two topic hashtags are the first two of the first rule
    that matches. *)
Lemma take_2_suggested topic :
  take 2 (suggested topic) ∈
    [ []; take 2 learning_tags; take 2 success_tags; take 2 team_tags;
      take 2 tip_tags ].
Proof.
  unfold suggested, extend_if. cbv zeta.
  repeat case_match; cbn; rewrite !elem_of_cons; tauto.
Qed.

Lemma catalog_entry_cases industry :
  catalog_entry industry = [] \/
  exists key, (key, catalog_entry industry) ∈
              map_to_list industry_hashtags.
Proof.
  unfold catalog_entry.
  destruct (industry_hashtags !! lower industry) as [tags|] eqn:H;
    [right | by left].
  exists (lower industry). by apply elem_of_map_to_list.
Qed.

(** Every combination of a catalog entry (or none) with the topic
    hashtags of one rule (or none) and the general hashtag is free of
    duplicates. *)
Lemma combinations_NoDup :
  Forall (fun tags =>
    Forall (fun top => NoDup (take 2 tags ++ top ++ take 1 general_hashtags))
           [ []; take 2 learning_tags; take 2 success_tags;
             take 2 team_tags; take 2 tip_tags ])
    ([] :: (map_to_list industry_hashtags).*2).
Proof. compute_done. Qed.

Lemma recommended_NoDup topic industry : NoDup (recommended topic industry).
Proof.
  unfold recommended. rewrite <- suggested_topic_matched.
  pose proof combinations_NoDup as Hall. rewrite Forall_forall in Hall.
  assert (catalog_entry industry ∈ [] :: (map_to_list industry_hashtags).*2)
    as Hin.
  { destruct (catalog_entry_cases industry) as [-> | [key Hkey]].
    - apply elem_of_cons. by left.
    - apply elem_of_cons. right.
      by apply (list_elem_of_fmap_2' snd _ (key, catalog_entry industry)). }
  specialize (Hall _ Hin). rewrite Forall_forall in Hall.
  apply Hall, take_2_suggested.
Qed.

Lemma recommended_length topic industry :
  (length (recommended topic industry) <= 5)%nat.
Proof.
  unfold recommended. rewrite !length_app, !length_take.
  unfold general_hashtags. cbn [length]. lia.
Qed.

(** Deduplication and truncation never remove anything: the source
    returns the recommendation of the specification. *)
Lemma final_hashtags_recommended topic industry :
  final_hashtags topic industry = recommended topic industry.
Proof.
  unfold final_hashtags. cbv zeta. rewrite app_nil_l, <- app_assoc.
  rewrite suggested_topic_matched. fold (catalog_entry industry).
  fold (recommended topic industry).
  rewrite dict_fromkeys_NoDup_id by apply recommended_NoDup.
  apply take_ge, recommended_length.
Qed.

Example suggest_hashtags_team_success_tips :
  suggest_hashtags (lit "team success tips") (lit "tech") =
  lit "Recommended hashtags: #Technology #Innovation #Success #Achievement #LinkedIn".
Proof. by vm_compute. Qed.

Example suggest_hashtags_default_industry :
  suggest_hashtags (lit "Learning to lead") (lit "general") =
  lit "Recommended hashtags: #Learning #ProfessionalDevelopment #LinkedIn".
Proof. by vm_compute. Qed.

(** C1.  For every topic and industry the recommender returns at most 5
    hashtags without duplicates: the first 2 entries of the catalog
    entry of the lower-cased industry (none for an unknown industry),
    then the first 2 hashtags of the topic rules whose trigger occurs in
    the lower-cased topic, taken in declared order, then the first
    general hashtag, duplicates removed at their later occurrences; the
    case of the arguments is immaterial; for "team success tips" and
    "tech" that is the two first tech hashtags, two topic hashtags and
    the general one, and for an empty topic and an unknown industry a
    single entry. *)
Theorem suggest_hashtags_contract (topic industry : str) :
  (length (final_hashtags topic industry) <= 5)%nat /\
  NoDup (final_hashtags topic industry) /\
  final_hashtags topic industry =
    dict_fromkeys (take 2 (catalog_entry industry) ++
                   take 2 (topic_matched topic) ++
                   take 1 general_hashtags) /\
  final_hashtags topic industry =
    take 2 (catalog_entry industry) ++ take 2 (topic_matched topic) ++
    take 1 general_hashtags /\
  (industry_hashtags !! lower industry = None ->
   final_hashtags topic industry =
     take 2 (topic_matched topic) ++ take 1 general_hashtags) /\
  final_hashtags topic industry =
    final_hashtags (lower topic) (lower industry) /\
  final_hashtags (lit "team success tips") (lit "tech") =
    [lit "#Technology"; lit "#Innovation"; lit "#Success";
     lit "#Achievement"; lit "#LinkedIn"] /\
  final_hashtags (lit "") (lit "unknown-industry") = [lit "#LinkedIn"].
Proof.
  pose proof (recommended_NoDup topic industry) as Hnd.
  pose proof (recommended_length topic industry) as Hlen.
  rewrite !final_hashtags_recommended. split_and!; try done.
  - by rewrite dict_fromkeys_NoDup_id.
  - intros Hnone. unfold recommended, catalog_entry. by rewrite Hnone.
  - unfold recommended, catalog_entry, topic_matched, rule_matches.
    by rewrite !lower_idemp.
Qed.

Lemma suggest_hashtags_contract_witness :
  industry_hashtags !! lower (lit "unknown-industry") = None /\
  final_hashtags (lit "team") (lit "unknown-industry") =
    take 2 (topic_matched (lit "team")) ++ take 1 general_hashtags.
Proof.
  assert (industry_hashtags !! lower (lit "unknown-industry") = None) as H
    by (vm_compute; reflexivity).
  split; [exact H|].
  destruct (suggest_hashtags_contract (lit "team") (lit "unknown-industry"))
    as (_ & _ & _ & _ & Hunknown & _).
  exact (Hunknown H).
Defined.

(** C10.  For every topic and industry the recommendation holds the
    first general hashtag "#LinkedIn" and so is never empty: that
    hashtag is appended unconditionally, it occurs in no catalog entry
    and in no topic rule, and neither deduplication nor the truncation
    to 5 entries removes it. *)
Theorem suggest_hashtags_never_empty (topic industry : str) :
  lit "#LinkedIn" ∈ final_hashtags topic industry /\
  final_hashtags topic industry <> [] /\
  last (final_hashtags topic industry) = Some (lit "#LinkedIn") /\
  map_Forall (fun _ tags => lit "#LinkedIn" ∉ tags) industry_hashtags /\
  Forall (fun rule => lit "#LinkedIn" ∉ rule.2) topic_keyword_rules /\
  lit "#LinkedIn" ∉ suggested topic.
Proof.
  rewrite final_hashtags_recommended. unfold recommended.
  split_and!.
  - rewrite !elem_of_app. right. right. simpl. apply elem_of_cons. by left.
  - intros H. do 2 apply app_eq_nil in H as [_ H]. discriminate.
  - rewrite !app_assoc. apply last_snoc.
  - compute_done.
  - compute_done.
  - unfold suggested, extend_if. cbv zeta.
    repeat case_match; compute_done.
Qed.

End Hashtags.

(** ** Splitting and joining *)
Section Splitting.
Import Py.

Lemma fields_not_nil p s : fields p s <> [].
Proof. destruct s as [|c s]; simpl; [done|]. by repeat case_match. Qed.

(** A text is one field, or a first field, a separator and the rest. *)
Lemma fields_split p s :
  (Forall (fun c => p c = false) s /\ fields p s = [s]) \/
  exists f c rest,
    s = f ++ c :: rest /\ p c = true /\ Forall (fun c => p c = false) f /\
    fields p s = f :: fields p rest.
Proof.
  induction s as [|a s IH]; [by left|]. simpl.
  destruct (p a) eqn:Hp.
  - right. by exists [], a, s.
  - destruct IH as [[Hall ->] | (f & c & rest & -> & Hc & Hall & ->)].
    + left. split; [|done]. by constructor.
    + right. exists (a :: f), c, rest. split_and!; try done.
      by constructor.
Qed.

Lemma fields_app p a c b :
  p c = true -> fields p (a ++ c :: b) = fields p a ++ fields p b.
Proof.
  intros Hc. induction a as [|x a IH]; simpl.
  - by rewrite Hc.
  - rewrite IH. destruct (p x); [done|].
    pose proof (fields_not_nil p a). by destruct (fields p a).
Qed.

Lemma fields_no_sep p s :
  Forall (fun c => p c = false) s -> fields p s = [s].
Proof.
  induction 1 as [|c s Hc _ IH]; [done|]. simpl. by rewrite Hc, IH.
Qed.

Lemma fields_Forall p s :
  Forall (Forall (fun c => p c = false)) (fields p s).
Proof.
  induction s as [|a s IH]; simpl; [by repeat constructor|].
  destruct (p a) eqn:Hp; [by constructor|].
  destruct (fields p s) as [|f fs]; [by repeat constructor|].
  apply Forall_cons in IH as [Hf Hfs]. by repeat constructor.
Qed.

Lemma split_ws_words s : Forall word (split_ws s).
Proof.
  unfold split_ws. pose proof (fields_Forall is_space s) as H.
  induction H as [|f fs Hf _ IH]; simpl; [done|].
  destruct f; simpl; [done|]. constructor; [|done]. by split.
Qed.

Lemma split_ws_app a c b :
  is_space c = true -> split_ws (a ++ c :: b) = split_ws a ++ split_ws b.
Proof.
  intros Hc. unfold split_ws. rewrite fields_app by done.
  apply List.filter_app.
Qed.

Lemma split_ws_word w : word w -> split_ws w = [w].
Proof.
  intros [Hne Hall]. unfold split_ws. rewrite fields_no_sep by done.
  by destruct w.
Qed.

Lemma split_ws_cons_space c s :
  is_space c = true -> split_ws (c :: s) = split_ws s.
Proof. intros Hc. exact (split_ws_app [] c s Hc). Qed.

Lemma split_ws_spaces s :
  Forall (fun c => is_space c = true) s -> split_ws s = [].
Proof.
  induction 1 as [|c s Hc _ IH]; [done|]. by rewrite split_ws_cons_space.
Qed.

Lemma split_ws_join (l : list str) :
  split_ws (join (lit " ") l) = concat (map split_ws l).
Proof.
  induction l as [|x l IH]; [done|].
  destruct l as [|y l].
  - simpl. by rewrite app_nil_r.
  - change (join (lit " ") (x :: y :: l))
      with (x ++ " "%char :: join (lit " ") (y :: l)).
    rewrite split_ws_app by done. by rewrite IH.
Qed.

Lemma split_ws_join_words (l : list str) :
  Forall word l -> split_ws (join (lit " ") l) = l.
Proof.
  intros H. rewrite split_ws_join.
  induction H as [|w l Hw _ IH]; [done|].
  simpl. by rewrite split_ws_word, IH.
Qed.

(** Splitting at separators that are whitespace loses no word. *)
Lemma split_ws_fields p s :
  (forall c, p c = true -> is_space c = true) ->
  concat (map split_ws (fields p s)) = split_ws s.
Proof.
  intros Hp. remember (length s) as n eqn:Hn. revert s Hn.
  induction n as [n IH] using lt_wf_ind. intros s ->.
  destruct (fields_split p s)
    as [[_ ->] | (f & c & rest & -> & Hc & _ & ->)].
  - simpl. by rewrite app_nil_r.
  - simpl. rewrite (IH (length rest)); [|rewrite length_app; simpl; lia|done].
    rewrite split_ws_app; [done | by apply Hp].
Qed.

Lemma lstrip_split s :
  exists spaces,
    s = spaces ++ lstrip s /\ Forall (fun c => is_space c = true) spaces.
Proof.
  induction s as [|c s (spaces & IH & Hall)]; [by exists []|]. simpl.
  destruct (is_space c) eqn:Hc.
  - exists (c :: spaces). split; [by rewrite IH at 1 | by constructor].
  - by exists [].
Qed.

Lemma rstrip_split s :
  exists spaces,
    s = rstrip s ++ spaces /\ Forall (fun c => is_space c = true) spaces.
Proof.
  unfold rstrip. destruct (lstrip_split (rev s)) as (spaces & H & Hall).
  exists (rev spaces). split.
  - rewrite <- rev_app_distr, <- H. by rewrite rev_involutive.
  - by apply List.Forall_rev.
Qed.

Lemma split_ws_spaces_l spaces s :
  Forall (fun c => is_space c = true) spaces ->
  split_ws (spaces ++ s) = split_ws s.
Proof.
  induction 1 as [|c spaces Hc _ IH]; [done|].
  by rewrite <- app_comm_cons, split_ws_cons_space.
Qed.

Lemma split_ws_spaces_r s spaces :
  Forall (fun c => is_space c = true) spaces ->
  split_ws (s ++ spaces) = split_ws s.
Proof.
  intros H. destruct H as [|c spaces Hc Hall]; [by rewrite app_nil_r|].
  rewrite split_ws_app by done. rewrite (split_ws_spaces spaces Hall).
  apply app_nil_r.
Qed.

Lemma split_ws_strip s : split_ws (strip s) = split_ws s.
Proof.
  unfold strip.
  destruct (lstrip_split s) as (sl & Hl & Hsl).
  destruct (rstrip_split (lstrip s)) as (sr & Hr & Hsr).
  rewrite Hl at 2. rewrite split_ws_spaces_l by done.
  rewrite Hr at 2. by rewrite split_ws_spaces_r.
Qed.

End Splitting.

(** ** Reflow formatter *)
Section Reflow.
Import Py WebUiServer.

(** The three branches of one step of the word loop. *)
Lemma add_word_eq lines current_line w :
  add_word (lines, current_line) w =
    if (15 <? length (join (lit " ") (current_line ++ [w])))%nat then
      if (1 <? length (current_line ++ [w]))%nat
      then (lines ++ [join (lit " ") current_line], [w])
      else (lines ++ [w], [])
    else (lines, current_line ++ [w]).
Proof.
  unfold add_word. rewrite take_app_length'; [done|].
  rewrite length_app. simpl. lia.
Qed.

(** *** Every word reaches the output, once and in order *)

Lemma concat_map_snoc {A B} (f : A -> list B) l x :
  concat (map f (l ++ [x])) = concat (map f l) ++ f x.
Proof. by rewrite map_app, concat_app; simpl; rewrite app_nil_r. Qed.

Lemma add_word_held st w :
  word w -> Forall word st.2 ->
  held (add_word st w) = held st ++ [w] /\ Forall word (add_word st w).2.
Proof.
  destruct st as [lines current_line]. intros Hw Hcur.
  rewrite add_word_eq. unfold held. simpl in Hcur.
  repeat case_match; simpl.
  - rewrite concat_map_snoc, split_ws_join_words by done.
    split; [by rewrite <- app_assoc | by constructor].
  - assert (current_line = []) as ->.
    { destruct current_line; [done|]. apply Nat.ltb_ge in H0.
      rewrite length_app in H0. simpl in H0. lia. }
    rewrite concat_map_snoc, split_ws_word by done.
    by rewrite !app_nil_r.
  - split; [by rewrite app_assoc|].
    apply Forall_app. split; [done | by constructor].
Qed.

Lemma word_loop_held ws st :
  Forall word ws -> Forall word st.2 ->
  held (fold_left add_word ws st) = held st ++ ws /\
  Forall word (fold_left add_word ws st).2.
Proof.
  intros Hws. revert st. induction Hws as [|w ws Hw _ IH]; intros st Hcur.
  - simpl. by rewrite app_nil_r.
  - simpl. destruct (add_word_held st w Hw Hcur) as [Hheld Hcur'].
    destruct (IH _ Hcur') as [-> H]. rewrite Hheld.
    by rewrite <- app_assoc.
Qed.

Lemma add_sentence_words lines sentence :
  concat (map split_ws (add_sentence lines sentence)) =
  concat (map split_ws lines) ++ split_ws sentence.
Proof.
  unfold add_sentence. rewrite <- (split_ws_strip sentence).
  destruct (nonempty (strip sentence)) eqn:Hne; simpl.
  - destruct (15 <? length (strip sentence))%nat.
    + pose proof (word_loop_held (split_ws (strip sentence)) (lines, [])
                    (split_ws_words _) (Forall_nil_2 _)) as [Hheld Hcur].
      destruct (fold_left add_word _ _) as [lines' current_line].
      unfold held in Hheld. simpl in Hheld, Hcur.
      rewrite app_nil_r in Hheld. rewrite <- Hheld.
      destruct current_line as [|w ws]; cbn [nonempty_list];
        [by rewrite app_nil_r|].
      by rewrite concat_map_snoc, split_ws_join_words.
    + apply concat_map_snoc.
  - destruct (strip sentence); [|done]. by rewrite app_nil_r.
Qed.

Lemma sentence_loop_words ss lines :
  concat (map split_ws (fold_left add_sentence ss lines)) =
  concat (map split_ws lines) ++ concat (map split_ws ss).
Proof.
  revert lines. induction ss as [|s ss IH]; intros lines; simpl.
  - by rewrite app_nil_r.
  - by rewrite IH, add_sentence_words, <- app_assoc.
Qed.

Lemma NL_is_space c : Ascii.eqb NL c = true -> is_space c = true.
Proof. by intros <-%Ascii.eqb_eq. Qed.

Lemma sentences_words original_content :
  concat (map split_ws (sentences original_content)) =
  fragment_words original_content.
Proof. apply split_ws_fields, NL_is_space. Qed.

Lemma lines_of_words original_content :
  concat (map split_ws (lines_of original_content)) =
  fragment_words original_content.
Proof.
  unfold lines_of. rewrite sentence_loop_words. apply sentences_words.
Qed.

(** *** The spacing loop adds blank lines only *)

Lemma spacing_loop_filter lines l acc :
  List.filter nonempty (fold_left (add_spaced lines) l acc) =
  List.filter nonempty acc ++ List.filter nonempty l.*2.
Proof.
  revert acc. induction l as [|[i line] l IH]; intros acc; simpl.
  - by rewrite app_nil_r.
  - rewrite IH. case_match; rewrite !List.filter_app; simpl;
      destruct (nonempty line); by rewrite <- ?app_assoc, ?app_nil_r.
Qed.

Lemma spacing_loop_elem lines l acc x :
  x ∈ fold_left (add_spaced lines) l acc -> x ∈ acc \/ x = [] \/ x ∈ l.*2.
Proof.
  revert acc. induction l as [|[i line] l IH]; intros acc; simpl.
  - by left.
  - intros [Hx | [-> | Hx]]%IH; [|by right; left|].
    + case_match; rewrite !elem_of_app, ?list_elem_of_singleton in Hx;
        rewrite elem_of_cons; tauto.
    + rewrite elem_of_cons. tauto.
Qed.

Lemma enumerate_lines {A} (l : list A) : (enumerate l).*2 = l.
Proof. unfold enumerate. apply snd_zip. by rewrite length_seq. Qed.

Lemma formatted_lines_filter original_content :
  List.filter nonempty (formatted_lines original_content) =
  List.filter nonempty (lines_of original_content).
Proof.
  unfold formatted_lines. cbv zeta.
  by rewrite spacing_loop_filter, enumerate_lines.
Qed.

Lemma split_ws_filter_nonempty (l : list str) :
  concat (map split_ws (List.filter nonempty l)) = concat (map split_ws l).
Proof.
  induction l as [|x l IH]; [done|]. simpl.
  destruct x; simpl; by rewrite IH.
Qed.

Lemma rejoined_words original_content :
  split_ws (rejoined original_content) = fragment_words original_content.
Proof.
  unfold rejoined. rewrite split_ws_join, formatted_lines_filter.
  rewrite split_ws_filter_nonempty. apply lines_of_words.
Qed.

Lemma non_space_fields p s :
  concat (fields p s) = List.filter (fun c => negb (p c)) s.
Proof.
  induction s as [|c s IH]; [done|]. simpl.
  destruct (p c); simpl; [done|]. rewrite <- IH.
  pose proof (fields_not_nil p s). by destruct (fields p s).
Qed.

Lemma non_space_words s : concat (split_ws s) = non_space s.
Proof.
  unfold split_ws, non_space. rewrite <- non_space_fields.
  induction (fields is_space s) as [|f fs IH]; [done|]. simpl.
  destruct f; simpl; by rewrite IH.
Qed.

Lemma non_space_replace c s :
  non_space (replace c (c :: [NL]) s) = non_space s.
Proof.
  unfold non_space, replace. induction s as [|x s IH]; [done|].
  cbn [flat_map]. rewrite List.filter_app, IH.
  destruct (Ascii.eqb_spec x c) as [->|]; simpl.
  - by destruct (is_space c).
  - by destruct (is_space x).
Qed.

Lemma non_space_with_breaks original_content :
  non_space (with_breaks original_content) = non_space original_content.
Proof. unfold with_breaks. by rewrite !non_space_replace. Qed.

(** *** Emitted lines are short, or single words *)

Lemma join_singleton sep (w : str) : join sep [w] = w.
Proof. done. Qed.

Lemma running_line_ok W current_line :
  running_ok W current_line -> line_ok W (join (lit " ") current_line).
Proof. intros [H | (w & -> & Hw)]; [by left | by right]. Qed.

Lemma add_word_ok W st w :
  W w -> Forall (line_ok W) st.1 -> running_ok W st.2 ->
  Forall (line_ok W) (add_word st w).1 /\ running_ok W (add_word st w).2.
Proof.
  destruct st as [lines current_line]. intros Hw Hlines Hcur.
  rewrite add_word_eq. simpl in Hlines, Hcur.
  destruct (Nat.ltb_spec 15 (length (join (lit " ") (current_line ++ [w]))));
    [destruct (1 <? length (current_line ++ [w]))%nat|]; cbn [fst snd].
  - split; [|right; by exists w].
    apply Forall_app. split; [done|].
    constructor; [|done]. by apply running_line_ok.
  - split; [|by left; simpl; lia].
    apply Forall_app. split; [done|]. constructor; [|done]. by right.
  - split; [done|]. by left.
Qed.

Lemma word_loop_ok W ws st :
  Forall W ws -> Forall (line_ok W) st.1 -> running_ok W st.2 ->
  Forall (line_ok W) (fold_left add_word ws st).1 /\
  running_ok W (fold_left add_word ws st).2.
Proof.
  intros Hws. revert st.
  induction Hws as [|w ws Hw _ IH]; intros st Hlines Hcur; [done|].
  simpl. destruct (add_word_ok W st w Hw Hlines Hcur). by apply IH.
Qed.

Lemma add_sentence_ok W lines sentence :
  Forall W (split_ws sentence) ->
  Forall (line_ok W) lines -> Forall (line_ok W) (add_sentence lines sentence).
Proof.
  intros Hws Hlines. unfold add_sentence.
  rewrite <- (split_ws_strip sentence) in Hws.
  destruct (nonempty (strip sentence)); [|done]. simpl.
  destruct (Nat.ltb_spec 15 (length (strip sentence))).
  - destruct (word_loop_ok W (split_ws (strip sentence)) (lines, []))
      as [Hlines' Hcur]; [done | done | by left; simpl; lia |].
    destruct (fold_left add_word _ _) as [lines' current_line].
    simpl in Hlines', Hcur. destruct current_line; [done|].
    cbn [nonempty_list]. apply Forall_app. split; [done|].
    constructor; [|done]. by apply running_line_ok.
  - apply Forall_app. split; [done|]. constructor; [|done]. by left.
Qed.

Lemma sentence_loop_ok W ss lines :
  Forall (fun sentence => Forall W (split_ws sentence)) ss ->
  Forall (line_ok W) lines ->
  Forall (line_ok W) (fold_left add_sentence ss lines).
Proof.
  intros Hss. revert lines.
  induction Hss as [|s ss Hs _ IH]; intros lines Hlines; [done|].
  simpl. by apply IH, add_sentence_ok.
Qed.

Lemma lines_of_ok original_content :
  Forall (line_ok (fragment_word original_content))
         (lines_of original_content).
Proof.
  apply sentence_loop_ok; [|done].
  apply Forall_forall. intros sentence Hs.
  pose proof (split_ws_words sentence) as Hwords.
  rewrite Forall_forall in Hwords. apply Forall_forall. intros w Hw.
  split; [by apply Hwords|].
  rewrite <- sentences_words.
  apply list_elem_of_In, in_concat. exists (split_ws sentence).
  split; [|by apply list_elem_of_In].
  by apply in_map, list_elem_of_In.
Qed.

Lemma formatted_lines_elem original_content line :
  line ∈ formatted_lines original_content -> line <> [] ->
  line ∈ lines_of original_content.
Proof.
  unfold formatted_lines. cbv zeta.
  intros [Hin | [-> | Hin]]%spacing_loop_elem Hne.
  - by apply elem_of_nil in Hin.
  - done.
  - by rewrite enumerate_lines in Hin.
Qed.

Example format_two_sentences :
  formatted_lines (lit "Hello world this is a test. Short one! And a third?") =
  [lit "Hello world"; lit "this is a test."; lit ""; lit "Short one!";
   lit "And a third?"].
Proof. by vm_compute. Qed.

Example format_long_word :
  formatted_lines long_word_text =
  [lit "Look:"; lit "averyveryverylongwordindeed"; lit ""; lit "and more"].
Proof. by vm_compute. Qed.

Example format_returned_text :
  format_linkedin_post_correctly (lit "Hi there. Bye!") =
  lit "CORRECTLY FORMATTED VERSION:" ++ [NL; NL] ++ lit "Hi there." ++ [NL] ++
  lit "Bye!".
Proof. by vm_compute. Qed.

End Reflow.


(** * Further properties *)

(** ** The two hashtag tables *)

(** Two different literals cannot both be the key. *)
Ltac key_clash :=
  exfalso;
  match goal with
  | H1 : lit ?a = ?k, H2 : lit ?b = ?k |- _ =>
      rewrite <- H2 in H1; vm_compute in H1; discriminate H1
  | H1 : ?k = lit ?a, H2 : lit ?b = ?k |- _ =>
      rewrite H1 in H2; vm_compute in H2; discriminate H2
  | H1 : ?k = lit ?a, H2 : ?k = lit ?b |- _ =>
      rewrite H1 in H2; vm_compute in H2; discriminate H2
  end.

Section HashtagVariants.
Import Py.

Lemma suggested_same topic :
  WebUiServerTools.suggested topic = LinkedinAgentExample.suggested topic.
Proof. reflexivity. Qed.

Lemma lookup_list_to_map {V} (items : list (str * V)) (key : str) :
  (list_to_map items : gmap str V) !! key = assoc items key.
Proof.
  induction items as [|[k v] items IH]; [apply lookup_empty|].
  cbn [list_to_map foldr fst snd assoc]. rewrite lookup_insert.
  by case_decide.
Qed.

Lemma lookup_industry_8 (k : str) :
  LinkedinAgentExample.industry_hashtags !! k =
    if decide (lit "hr" = k)
    then Some [lit "#HumanResources"; lit "#Recruiting";
               lit "#TalentAcquisition"; lit "#WorkplaceCulture";
               lit "#EmployeeEngagement"]
    else if decide (lit "consulting" = k)
    then Some [lit "#Consulting"; lit "#Strategy"; lit "#BusinessConsulting";
               lit "#ProfessionalServices"; lit "#Advisory"]
    else WebUiServerTools.industry_hashtags !! k.
Proof.
  unfold LinkedinAgentExample.industry_hashtags,
    WebUiServerTools.industry_hashtags.
  rewrite !lookup_list_to_map. cbn [assoc].
  repeat case_decide; try done; key_clash.
Qed.

Lemma final_hashtags_6_cases topic industry :
  WebUiServerTools.final_hashtags topic industry =
    LinkedinAgentExample.final_hashtags topic industry /\
  WebUiServerTools.industry_hashtags !! lower industry =
    LinkedinAgentExample.industry_hashtags !! lower industry \/
  WebUiServerTools.final_hashtags topic industry =
    LinkedinAgentExample.final_hashtags topic (lit "general") /\
  WebUiServerTools.industry_hashtags !! lower industry = None.
Proof.
  unfold WebUiServerTools.final_hashtags,
    LinkedinAgentExample.final_hashtags. cbv zeta.
  rewrite suggested_same, (lookup_industry_8 (lower industry)).
  assert (LinkedinAgentExample.industry_hashtags !! lower (lit "general")
          = None) as -> by compute_done.
  unfold WebUiServerTools.industry_hashtags.
  rewrite !lookup_list_to_map. cbn [assoc].
  repeat case_decide; (by left) || (by right) || key_clash.
Qed.

Lemma final_hashtags_6_plain topic industry :
  WebUiServerTools.final_hashtags topic industry =
    take 2 (default [] (WebUiServerTools.industry_hashtags !! lower industry)) ++
    take 2 (WebUiServerTools.suggested topic) ++ [lit "#LinkedIn"].
Proof.
  destruct (final_hashtags_6_cases topic industry) as [[H Heq] | [H Hnone]].
  - rewrite H, Heq, final_hashtags_recommended.
    unfold HashtagSpec.recommended. by rewrite <- suggested_topic_matched.
  - rewrite H, Hnone, final_hashtags_recommended.
    unfold HashtagSpec.recommended, HashtagSpec.catalog_entry.
    assert (LinkedinAgentExample.industry_hashtags !! lower (lit "general")
            = None) as -> by compute_done.
    by rewrite <- suggested_topic_matched.
Qed.

Lemma take_2_suggested_length topic :
  length (take 2 (LinkedinAgentExample.suggested topic)) =
    match LinkedinAgentExample.suggested topic with [] => 0 | _ => 2 end%nat.
Proof.
  unfold LinkedinAgentExample.suggested, LinkedinAgentExample.extend_if.
  cbv zeta.
  repeat match goal with
         | |- context [contains ?a ?b || contains ?c ?d] =>
             destruct (contains a b || contains c d)
         end; reflexivity.
Qed.

Lemma industry_entries_long :
  map_Forall (fun _ tags => (2 <= length tags)%nat)
             LinkedinAgentExample.industry_hashtags.
Proof. compute_done. Qed.

(** X1.  The recommender of web_ui_server.py (and of app.py and
    streamlit_ui.py) returns, without duplicates, two hashtags of a known
    industry, two hashtags when a topic rule matches, and "#LinkedIn":
    one, three or five hashtags. *)
Theorem suggest_hashtags_6_count (topic industry : str) :
  WebUiServerTools.final_hashtags topic industry =
    take 2 (default [] (WebUiServerTools.industry_hashtags !! lower industry)) ++
    take 2 (WebUiServerTools.suggested topic) ++ [lit "#LinkedIn"] /\
  NoDup (WebUiServerTools.final_hashtags topic industry) /\
  length (WebUiServerTools.final_hashtags topic industry) =
    ((if WebUiServerTools.industry_hashtags !! lower industry is Some _
      then 2 else 0) +
     (if WebUiServerTools.suggested topic is [] then 0 else 2) + 1)%nat.
Proof.
  split; [apply final_hashtags_6_plain|]. split.
  - destruct (final_hashtags_6_cases topic industry) as [[-> _] | [-> _]].
    all: rewrite final_hashtags_recommended; apply recommended_NoDup.
  - rewrite final_hashtags_6_plain, !length_app.
    change (WebUiServerTools.suggested topic)
      with (LinkedinAgentExample.suggested topic).
    rewrite take_2_suggested_length. cbn [length].
    destruct (WebUiServerTools.industry_hashtags !! lower industry)
      as [tags|] eqn:Htags; [|simpl; lia].
    assert (LinkedinAgentExample.industry_hashtags !! lower industry
            = Some tags) as Hin.
    { destruct (final_hashtags_6_cases topic industry)
        as [[_ Heq] | [_ Hnone]]; congruence. }
    apply industry_entries_long in Hin. cbn beta in Hin.
    rewrite length_take_le by done. simpl. lia.
Qed.

(** X2.  The recommender of linkedin_agent_example.py differs from the one
    of the other files on the industries "hr" and "consulting" only, which
    the others do not know: there it puts the two hashtags of the industry
    in front of what the others return. *)
Theorem suggest_hashtags_variants (topic industry : str) :
  LinkedinAgentExample.final_hashtags topic industry =
    (if decide (lower industry = lit "hr")
     then [lit "#HumanResources"; lit "#Recruiting"]
     else if decide (lower industry = lit "consulting")
     then [lit "#Consulting"; lit "#Strategy"]
     else []) ++
    WebUiServerTools.final_hashtags topic industry.
Proof.
  rewrite final_hashtags_6_plain, final_hashtags_recommended.
  unfold HashtagSpec.recommended, HashtagSpec.catalog_entry.
  rewrite <- suggested_topic_matched.
  rewrite (lookup_industry_8 (lower industry)).
  repeat case_decide; try first [done | congruence | key_clash].
  all: match goal with
       | H : lower _ = lit ?x |- _ =>
           rewrite H;
           assert (WebUiServerTools.industry_hashtags !! lit x = None) as ->
             by compute_done;
           reflexivity
       end.
Qed.

End HashtagVariants.

(** ** Length reports *)
Section LengthReports.
Import Py.

Lemma digits_of_uint d :
  Forall (fun c => is_digit c = true) (lit (NilEmpty.string_of_uint d)).
Proof. induction d; simpl; by constructor. Qed.

Lemma str_of_nat_digits n :
  Forall (fun c => is_digit c = true) (str_of_nat n).
Proof.
  unfold str_of_nat, NilZero.string_of_uint.
  destruct (Nat.to_uint n); try apply digits_of_uint.
  by repeat constructor.
Qed.

Lemma lit_inj s t : lit s = lit t -> s = t.
Proof.
  intros H. apply (f_equal string_of_list_ascii) in H.
  unfold lit in H. by rewrite !string_of_list_ascii_of_string in H.
Qed.

Lemma to_uint_not_Nil n : Nat.to_uint n <> Decimal.Nil.
Proof.
  intros H. pose proof (DecimalNat.Unsigned.of_to n) as Hn.
  rewrite H in Hn. simpl in Hn. by subst.
Qed.

Lemma str_of_nat_inj n m : str_of_nat n = str_of_nat m -> n = m.
Proof.
  intros H%lit_inj. apply DecimalNat.Unsigned.to_uint_inj.
  apply (f_equal NilZero.uint_of_string) in H.
  rewrite !NilZero.usu in H by apply to_uint_not_Nil. congruence.
Qed.

(** A run of digits ends where the first other character stands. *)
Lemma digits_then_other (d1 d2 r1 r2 : str) (c1 c2 : ascii) :
  Forall (fun c => is_digit c = true) d1 ->
  Forall (fun c => is_digit c = true) d2 ->
  is_digit c1 = false -> is_digit c2 = false ->
  d1 ++ c1 :: r1 = d2 ++ c2 :: r2 -> d1 = d2.
Proof.
  intros H1. revert d2. induction H1 as [|x d1 Hx _ IH]; intros d2 H2 Hc1 Hc2 H.
  - destruct H2 as [|y d2 Hy _]; [done|]. simpl in H. injection H as -> _.
    congruence.
  - destruct H2 as [|y d2 Hy H2]; simpl in H.
    + injection H as -> _. congruence.
    + injection H as -> H. f_equal. by apply IH.
Qed.

Lemma analyze_shape_web content :
  exists rest,
    WebUiServerTools.analyze_post_length content =
    lit "Post is " ++ str_of_nat (length content) ++ " "%char :: rest.
Proof.
  unfold WebUiServerTools.analyze_post_length. cbv zeta.
  repeat case_match; eexists; reflexivity.
Qed.

Lemma analyze_shape_linkedin content :
  exists rest,
    LinkedinAgentExample.analyze_post_length content =
    lit "Post is " ++ str_of_nat (length content) ++ " "%char :: rest.
Proof.
  unfold LinkedinAgentExample.analyze_post_length. cbv zeta.
  repeat case_match; eexists; reflexivity.
Qed.

Lemma report_length n m r1 r2 :
  lit "Post is " ++ str_of_nat n ++ " "%char :: r1 =
  lit "Post is " ++ str_of_nat m ++ " "%char :: r2 -> n = m.
Proof.
  intros H%app_inv_head. apply str_of_nat_inj.
  by eapply digits_then_other; [apply str_of_nat_digits.. | | | exact H].
Qed.

(** X3.  The report of [analyze_post_length] carries the length of the
    text and nothing else of it: two texts get the same report exactly
    when they have the same length, in web_ui_server.py (and app.py) as in
    linkedin_agent_example.py (and streamlit_ui.py). *)
Theorem analyze_post_length_reports_length (content1 content2 : str) :
  (WebUiServerTools.analyze_post_length content1 =
   WebUiServerTools.analyze_post_length content2
   <-> length content1 = length content2) /\
  (LinkedinAgentExample.analyze_post_length content1 =
   LinkedinAgentExample.analyze_post_length content2
   <-> length content1 = length content2).
Proof.
  split; split.
  - destruct (analyze_shape_web content1) as [r1 ->].
    destruct (analyze_shape_web content2) as [r2 ->]. apply report_length.
  - unfold WebUiServerTools.analyze_post_length. by intros ->.
  - destruct (analyze_shape_linkedin content1) as [r1 ->].
    destruct (analyze_shape_linkedin content2) as [r2 ->]. apply report_length.
  - unfold LinkedinAgentExample.analyze_post_length. by intros ->.
Qed.

(** X4.  The three tools of web_ui_server.py that judge the length of a
    post agree on few lengths.  The length classifier says "perfect
    length" and the engagement scorer "optimal length" together exactly
    from 1300 to 2500 characters; from 300 to 1299 the classifier says
    "perfect length" while the scorer asks for an adjustment; from 2501
    to 3000 the scorer says "optimal length" while the classifier says
    "too long" and the validator "over the limit". *)
Theorem length_judgements_web (content : str) :
  (WebUiServerTools.analyze_post_length content =
     App.perfect_length (length content) /\
   EngagementChecks.has_optimal_length content = true
   <-> (1300 <= length content <= 2500)%nat) /\
  (WebUiServerTools.analyze_post_length content =
     App.perfect_length (length content) /\
   EngagementChecks.has_optimal_length content = false
   <-> (300 <= length content < 1300)%nat) /\
  (WebUiServerTools.analyze_post_length content =
     App.too_long (length content) /\
   EngagementChecks.has_optimal_length content = true /\
   WebUiServer.within_limit content = false
   <-> (2500 < length content <= 3000)%nat).
Proof.
  pose proof (app_labels_distinct (length content)) as (A1 & A2 & A3).
  unfold WebUiServerTools.analyze_post_length,
    EngagementChecks.has_optimal_length, WebUiServer.within_limit.
  cbv zeta.
  destruct (Nat.ltb_spec (length content) 300);
    destruct (Nat.leb_spec (length content) 2500);
    destruct (Nat.leb_spec 1300 (length content));
    destruct (Nat.leb_spec (length content) 3000);
    try lia; simpl; repeat split; intros; try lia;
    try congruence; intuition (try congruence; try lia).
Qed.

End LengthReports.

(** ** Weather and calculator tools *)
Section WeatherAndCalculator.
Import Py WebUiServerTools.

Lemma startswith_app p s : startswith p (p ++ s) = true.
Proof. apply startswith_spec. by exists s. Qed.

Lemma mock_weather_lookup (k : str) :
  mock_weather !! k =
    assoc [(lit "new york", lit "Sunny, 22" ++ [degree] ++ lit "C");
           (lit "london", lit "Cloudy, 15" ++ [degree] ++ lit "C");
           (lit "tokyo", lit "Rainy, 18" ++ [degree] ++ lit "C");
           (lit "paris", lit "Partly cloudy, 19" ++ [degree] ++ lit "C");
           (lit "sydney", lit "Sunny, 25" ++ [degree] ++ lit "C")] k.
Proof. apply lookup_list_to_map. Qed.

Lemma get_weather_cases (city : str) :
  ((lower city ∈ [lit "new york"; lit "london"; lit "tokyo"; lit "paris";
                  lit "sydney"]) /\
   (exists weather,
      get_weather city = lit "Weather in " ++ city ++ lit ": " ++ weather)) \/
  ((lower city ∉ [lit "new york"; lit "london"; lit "tokyo"; lit "paris";
                  lit "sydney"]) /\
   (get_weather city =
      lit "Weather data not available for " ++ city ++
      lit " (this is a mock implementation)")).
Proof.
  unfold get_weather. cbv zeta. rewrite mock_weather_lookup. cbn [assoc].
  rewrite !elem_of_cons, elem_of_nil.
  repeat case_decide; [left; split; [|by eexists].. | right].
  all: try (match goal with H : lit _ = lower _ |- _ => rewrite <- H end;
            intuition).
  split; [|done]. intuition congruence.
Qed.

(** X5.  [get_weather] answers "Weather in ..." exactly for the cities
    whose lower-cased name is new york, london, tokyo, paris or sydney, and
    "Weather data not available for ..." for every other one; the two
    kinds of answer never coincide, and both repeat the city as it was
    given. *)
Theorem get_weather_answers (city : str) :
  (startswith (lit "Weather in ") (get_weather city) = true
   <-> lower city ∈ [lit "new york"; lit "london"; lit "tokyo"; lit "paris";
                     lit "sydney"]) /\
  (startswith (lit "Weather data not available for ") (get_weather city) = true
   <-> lower city ∉ [lit "new york"; lit "london"; lit "tokyo"; lit "paris";
                     lit "sydney"]) /\
  substring city (get_weather city).
Proof.
  destruct (get_weather_cases city) as [[Hin [weather ->]] | [Hout ->]].
  - split_and!.
    + split; [done | intros _; apply startswith_app].
    + split; [intros Hs; by vm_compute in Hs | done].
    + by exists (lit "Weather in "), (lit ": " ++ weather).
  - split_and!.
    + split; [intros Hs; by vm_compute in Hs | done].
    + split; [done | intros _; apply startswith_app].
    + by exists (lit "Weather data not available for "),
                (lit " (this is a mock implementation)").
Qed.

Lemma result_not_rejection (result : str) :
  lit "Result: " ++ result <> only_basic_operations.
Proof. discriminate. Qed.

Lemma error_not_rejection (expression e : str) :
  lit "Error calculating '" ++ expression ++ lit "': " ++ e
  <> only_basic_operations.
Proof. discriminate. Qed.

Lemma forallb_false_exists {A} (f : A -> bool) l :
  forallb f l = false <-> exists x, x ∈ l /\ f x = false.
Proof.
  induction l as [|x l IH]; simpl.
  - split; [done | by intros (x & Hx%elem_of_nil & _)].
  - rewrite andb_false_iff, IH. setoid_rewrite elem_of_cons. split.
    + intros [Hx | (y & Hy & Hfy)]; [by exists x; auto | exists y; auto].
    + intros (y & [-> | Hy] & Hfy); [by left | right; by exists y].
Qed.

(** X6.  [calculate] answers "Error: Only basic mathematical operations
    are allowed" exactly for the expressions with a character that is
    neither whitespace nor one of 0123456789+-*/.() - whatever evaluation
    would give. *)
Theorem calculate_rejects (eval : str -> str + str) (expression : str) :
  calculate eval expression = only_basic_operations
  <-> exists c, c ∈ expression /\ elem_char c (lit "0123456789+-*/.()") = false
                /\ is_space c = false.
Proof.
  unfold calculate.
  destruct (forallb allowed expression) eqn:Hall; cbn [negb].
  - split.
    + destruct (eval expression); intros H;
        [by apply result_not_rejection in H | by apply error_not_rejection in H].
    + intros (c & Hc & Hchar & Hspace).
      rewrite forallb_forall in Hall.
      apply list_elem_of_In, Hall in Hc. unfold allowed, allowed_chars in Hc.
      by rewrite Hchar, Hspace in Hc.
  - split; [intros _ | done].
    apply forallb_false_exists in Hall as (c & Hc & Hallowed).
    exists c. unfold allowed in Hallowed.
    apply orb_false_iff in Hallowed as [? ?]. done.
Qed.

(** X7.  [calculate] hands [eval] only expressions made of whitespace and
    the characters 0123456789+-*/.(): two evaluators that agree on those
    expressions give the same calculator. *)
Theorem calculate_evaluates_clean_only (eval1 eval2 : str -> str + str) :
  (forall expression,
     Forall (fun c => allowed c = true) expression ->
     eval1 expression = eval2 expression) ->
  forall expression, calculate eval1 expression = calculate eval2 expression.
Proof.
  intros Hagree expression. unfold calculate.
  destruct (forallb allowed expression) eqn:Hall; simpl; [|done].
  rewrite Hagree; [done|].
  rewrite forallb_forall in Hall. apply Forall_forall.
  intros c Hc. by apply Hall, list_elem_of_In.
Qed.

Lemma calculate_evaluates_clean_only_witness :
  calculate (fun e => inl e) (lit "import os") =
  calculate (fun e => if forallb allowed e then inl e else inr (lit "boom"))
            (lit "import os").
Proof.
  apply (calculate_evaluates_clean_only
           (fun e => inl e)
           (fun e => if forallb allowed e then inl e else inr (lit "boom"))).
  intros expression Hall.
  assert (forallb allowed expression = true) as ->; [|reflexivity].
  apply forallb_forall. intros c Hc%list_elem_of_In.
  rewrite Forall_forall in Hall. by apply Hall.
Defined.

End WeatherAndCalculator.

(** ** Reflow formatter: spacing, empty output, and the validator *)
Section ReflowMore.
Import Py WebUiServer.

Lemma add_spaced_even lines acc i line :
  Nat.Even i -> add_spaced lines acc (i, line) = acc ++ [line].
Proof.
  intros [k ->]. unfold add_spaced.
  replace ((Z.of_nat (2 * k) + 1) mod 2) with 1; [done|].
  rewrite Nat2Z.inj_mul, Z.add_comm, Z.mul_comm, Z.mod_add by lia. done.
Qed.

Lemma add_spaced_odd lines acc i line :
  Nat.Odd i ->
  add_spaced lines acc (i, line) =
    if (i + 1 <? length lines)%nat then (acc ++ [line]) ++ [[]]
    else acc ++ [line].
Proof.
  intros [k ->]. unfold add_spaced.
  replace ((Z.of_nat (2 * k + 1) + 1) mod 2) with 0.
  - cbn [Z.eqb andb].
    destruct (Z.ltb_spec (Z.of_nat (2 * k + 1)) (Z.of_nat (length lines) - 1));
      destruct (Nat.ltb_spec (2 * k + 1 + 1) (length lines)); (done || lia).
  - replace (Z.of_nat (2 * k + 1) + 1) with (0 + (Z.of_nat k + 1) * 2) by lia.
    by rewrite Z.mod_add.
Qed.

Lemma spacing_loop_spaced lines l acc i :
  Nat.Even i -> length lines = (i + length l)%nat ->
  fold_left (add_spaced lines) (zip (seq i (length l)) l) acc = acc ++ spaced l.
Proof.
  remember (length l) as n eqn:Hn. revert l acc i Hn.
  induction n as [n IH] using lt_wf_ind. intros l acc i -> Hi Hlen.
  destruct l as [|a [|b rest]].
  - simpl. by rewrite app_nil_r.
  - cbn [length seq zip zip_with fold_left]. by rewrite add_spaced_even.
  - cbn [length seq zip zip_with fold_left].
    rewrite (add_spaced_even lines acc i a) by done.
    rewrite (add_spaced_odd lines _ (S i) b)
      by (destruct Hi as [k ->]; exists k; lia).
    destruct rest as [|c rest].
    + simpl in Hlen. rewrite (proj2 (Nat.ltb_ge _ _)) by lia.
      simpl. by rewrite <- app_assoc.
    + simpl in Hlen. rewrite (proj2 (Nat.ltb_lt _ _)) by (simpl; lia).
      rewrite (IH (length (c :: rest))); [| simpl; lia | done | | simpl; lia].
      * change (spaced (a :: b :: c :: rest))
          with (a :: b :: [] :: spaced (c :: rest)).
        by rewrite <- !app_assoc.
      * destruct Hi as [k ->]. exists (S k). lia.
Qed.

Lemma spaced_length l :
  length (spaced l) = (length l + (length l - 1) / 2)%nat.
Proof.
  remember (length l) as n eqn:Hn. revert l Hn.
  induction n as [n IH] using lt_wf_ind. intros l ->.
  destruct l as [|a [|b [|c rest]]]; try done.
  change (spaced (a :: b :: c :: rest))
    with (a :: b :: [] :: spaced (c :: rest)).
  cbn [length].
  rewrite (IH (S (length rest))); [|simpl; lia|done].
  replace (S (S (S (length rest))) - 1)%nat
    with (S (length rest) - 1 + 1 * 2)%nat by lia.
  rewrite Nat.div_add by done. lia.
Qed.

(** X8.  The reflow formatter puts one blank line after every second
    line and none after the last: with n lines it returns n + (n - 1) / 2
    entries. *)
Theorem reflow_spacing (original_content : str) :
  formatted_lines original_content = spaced (lines_of original_content) /\
  length (formatted_lines original_content) =
    (length (lines_of original_content) +
     (length (lines_of original_content) - 1) / 2)%nat.
Proof.
  assert (formatted_lines original_content
          = spaced (lines_of original_content)) as H.
  { unfold formatted_lines, enumerate. cbv zeta.
    rewrite spacing_loop_spaced; [done | by exists 0%nat | done]. }
  split; [done|]. rewrite H. apply spaced_length.
Qed.

Lemma non_space_nil_spaces s :
  non_space s = [] -> Forall (fun c => is_space c = true) s.
Proof.
  unfold non_space. induction s as [|c s IH]; simpl; [done|].
  destruct (is_space c) eqn:Hc; simpl; [|done].
  intros H. constructor; auto.
Qed.

Lemma lstrip_spaces s :
  Forall (fun c => is_space c = true) s -> lstrip s = [].
Proof. induction 1 as [|c s Hc _ IH]; simpl; [done | by rewrite Hc]. Qed.

Lemma strip_no_word s : split_ws s = [] -> strip s = [].
Proof.
  intros H. unfold strip. rewrite lstrip_spaces; [done|].
  apply non_space_nil_spaces. by rewrite <- non_space_words, H.
Qed.

Lemma concat_nil_inv {A} (ls : list (list A)) :
  concat ls = [] -> Forall (fun l => l = []) ls.
Proof.
  induction ls as [|l ls IH]; simpl; [done|].
  intros [-> H]%app_eq_nil. constructor; auto.
Qed.

Lemma sentence_loop_no_word ss lines :
  Forall (fun sentence => split_ws sentence = []) ss ->
  fold_left add_sentence ss lines = lines.
Proof.
  intros H. revert lines. induction H as [|s ss Hs _ IH]; intros lines; [done|].
  simpl. assert (add_sentence lines s = lines) as ->; [|apply IH].
  unfold add_sentence. by rewrite (strip_no_word s Hs).
Qed.

Lemma spaced_nil_inv l : spaced l = [] -> l = [].
Proof. destruct l as [|a [|b [|c rest]]]; done. Qed.

(** X9.  The reflow formatter emits no line at all exactly when the text
    has no character other than whitespace; it then returns the bare
    heading "CORRECTLY FORMATTED VERSION:" followed by two line breaks. *)
Theorem reflow_nothing_to_format (original_content : str) :
  (formatted_lines original_content = []
   <-> Forall (fun c => is_space c = true) original_content) /\
  (formatted_lines original_content = [] ->
   format_linkedin_post_correctly original_content =
     lit "CORRECTLY FORMATTED VERSION:" ++ [NL; NL]).
Proof.
  split.
  - split.
    + intros H. apply non_space_nil_spaces.
      rewrite <- non_space_with_breaks, <- non_space_words.
      fold (fragment_words original_content).
      rewrite <- lines_of_words.
      destruct (reflow_spacing original_content) as [Hsp _].
      rewrite Hsp in H. apply spaced_nil_inv in H. by rewrite H.
    + intros H.
      assert (fragment_words original_content = []) as Hw.
      { unfold fragment_words. apply split_ws_spaces.
        apply non_space_nil_spaces. rewrite non_space_with_breaks.
        unfold non_space. induction H as [|c s Hc _ IH]; simpl; [done|].
        by rewrite Hc. }
      rewrite <- sentences_words in Hw.
      destruct (reflow_spacing original_content) as [-> _].
      unfold lines_of. rewrite sentence_loop_no_word; [done|].
      apply concat_nil_inv in Hw. rewrite Forall_forall in Hw.
      apply Forall_forall. intros s Hs. apply Hw.
      apply list_elem_of_In, in_map, list_elem_of_In. done.
  - intros H. unfold format_linkedin_post_correctly. by rewrite H.
Qed.

Lemma reflow_nothing_to_format_witness :
  formatted_lines (lit "  ") = [] /\
  format_linkedin_post_correctly (lit "  ") =
    lit "CORRECTLY FORMATTED VERSION:" ++ [NL; NL].
Proof.
  assert (formatted_lines (lit "  ") = []) as H by (by vm_compute).
  split; [exact H|].
  exact (proj2 (reflow_nothing_to_format (lit "  ")) H).
Defined.

Lemma fields_le p s :
  Forall (fun f => (length f <= length s)%nat) (fields p s).
Proof.
  induction s as [|c s IH]; cbn [fields].
  - constructor; [done | constructor].
  - destruct (p c).
    + constructor; [simpl; lia|].
      eapply Forall_impl; [exact IH|]. simpl. intros; lia.
    + destruct (fields p s) as [|f fs].
      * constructor; [simpl; lia | constructor].
      * apply Forall_cons in IH as [Hf Hfs]. constructor; [simpl; lia|].
        eapply Forall_impl; [exact Hfs|]. simpl. intros; lia.
Qed.

Lemma fields_join_bound p c n (ls : list str) :
  p c = true ->
  Forall (fun l => (length l <= n)%nat) ls ->
  Forall (fun f => (length f <= n)%nat) (fields p (join [c] ls)).
Proof.
  intros Hc Hls. induction Hls as [|x ls Hx Hls IH].
  - constructor; [simpl; lia | constructor].
  - destruct ls as [|y ls].
    + cbn [join]. eapply Forall_impl; [apply fields_le|].
      simpl. intros; lia.
    + change (join [c] (x :: y :: ls)) with (x ++ c :: join [c] (y :: ls)).
      rewrite fields_app by done. apply Forall_app. split; [|done].
      eapply Forall_impl; [apply fields_le|]. simpl. intros; lia.
Qed.

Lemma heading_one_line :
  fields (Ascii.eqb NL) (lit "CORRECTLY FORMATTED VERSION:") =
  [lit "CORRECTLY FORMATTED VERSION:"].
Proof. reflexivity. Qed.

Lemma formatted_text_lines original_content :
  split NL (format_linkedin_post_correctly original_content) =
    lit "CORRECTLY FORMATTED VERSION:" :: [] ::
    fields (Ascii.eqb NL) (join [NL] (formatted_lines original_content)).
Proof.
  unfold format_linkedin_post_correctly, split.
  change ([NL; NL] ++ ?x) with (NL :: NL :: x).
  rewrite fields_app by done. rewrite heading_one_line. reflexivity.
Qed.

(** X10.  What the reflow formatter returns always passes the hook check
    of the validator, whatever the post: its first line is the heading
    "CORRECTLY FORMATTED VERSION:", which has 28 characters. *)
Theorem formatted_text_has_hook (original_content : str) :
  hook_ok (format_linkedin_post_correctly original_content) = true /\
  exists rest,
    text_lines (format_linkedin_post_correctly original_content) =
    lit "CORRECTLY FORMATTED VERSION:" :: rest.
Proof.
  unfold hook_ok, text_lines. rewrite formatted_text_lines.
  split; [done | by eexists].
Qed.

(** X11.  When no word of the post has more than 80 characters, what the
    reflow formatter returns has no long line and passes the line length
    check of the validator. *)
Theorem formatted_text_has_short_lines (original_content : str) :
  (forall w, w ∈ fragment_words original_content -> (length w <= 80)%nat) ->
  long_lines (text_lines (format_linkedin_post_correctly original_content))
    = [] /\
  line_lengths_ok (format_linkedin_post_correctly original_content) = true.
Proof.
  intros Hwords.
  assert (long_lines
            (text_lines (format_linkedin_post_correctly original_content))
          = []) as Hlong.
  { unfold long_lines, text_lines. apply filter_none. intros line Hin.
    apply andb_false_iff. left. apply Nat.ltb_ge.
    rewrite formatted_text_lines in Hin.
    apply elem_of_cons in Hin as [-> | Hin]; [simpl; lia|].
    apply elem_of_cons in Hin as [-> | Hin]; [simpl; lia|].
    revert line Hin. apply Forall_forall.
    apply fields_join_bound; [done|]. apply Forall_forall. intros l Hl.
    destruct l as [|c l]; [simpl; lia|].
    pose proof (lines_of_ok original_content) as Hok.
    rewrite Forall_forall in Hok.
    destruct (Hok (c :: l)) as [Hshort | [_ Hword]];
      [by apply formatted_lines_elem | lia | by apply Hwords]. }
  split; [done|]. unfold line_lengths_ok.
  unfold text_lines in Hlong. by rewrite Hlong.
Qed.

Lemma formatted_text_has_short_lines_witness :
  line_lengths_ok
    (format_linkedin_post_correctly (lit "Hello world. Bye")) = true.
Proof.
  apply (formatted_text_has_short_lines (lit "Hello world. Bye")).
  intros w Hw.
  assert (Forall (fun w => (length w <= 80)%nat)
                 (fragment_words (lit "Hello world. Bye"))) as Hall.
  { vm_compute. repeat constructor. }
  rewrite Forall_forall in Hall. by apply Hall.
Defined.

End ReflowMore.

(** ** Connections and conversations of web_ui_server.py *)
Section Connections.
Import Py WebUiServerChat.

Lemma remove_present {A} `{EqDecision A} (x : A) (l : list A) :
  x ∈ l ->
  exists before after,
    l = before ++ x :: after /\ (x ∉ before) /\
    remove x l = Some (before ++ after).
Proof.
  induction l as [|y l IH]; [by intros ?%elem_of_nil|].
  intros Hin. simpl. case_decide as Hy.
  - subst. exists [], l. split_and!; [done | apply not_elem_of_nil | done].
  - apply elem_of_cons in Hin as [-> | Hin]; [done|].
    destruct (IH Hin) as (before & after & -> & Hbefore & ->).
    exists (y :: before), after. split_and!; [done | | done].
    apply not_elem_of_cons. split; [by intros -> | done].
Qed.

Lemma remove_last_added {A} `{EqDecision A} (x : A) (l : list A) :
  x ∉ l -> remove x (l ++ [x]) = Some l.
Proof.
  induction l as [|y l IH]; intros Hx; simpl.
  - by rewrite decide_True.
  - apply not_elem_of_cons in Hx as [Hxy Hx].
    rewrite decide_False by done. by rewrite IH.
Qed.

Lemma disconnect_history self websocket :
  conversation_history (default self (disconnect self websocket)) =
  conversation_history self.
Proof.
  unfold disconnect. case_decide; [|done].
  by destruct (remove websocket (active_connections self)).
Qed.

(** X12.  [disconnect] never fails and never touches a conversation: of
    a websocket that is registered the first occurrence is removed from
    the active connections, and for one that is not registered nothing
    changes. *)
Theorem disconnect_effect (self : ConnectionManager) (websocket : WebSocket) :
  exists self',
    disconnect self websocket = Some self' /\
    conversation_history self' = conversation_history self /\
    (websocket ∈ active_connections self ->
     exists before after,
       active_connections self = before ++ websocket :: after /\
       (websocket ∉ before) /\
       active_connections self' = before ++ after) /\
    (websocket ∉ active_connections self -> self' = self).
Proof.
  unfold disconnect. case_decide as Hin.
  - destruct (remove_present websocket _ Hin)
      as (before & after & Hl & Hbefore & ->).
    eexists. split; [done|]. split_and!; [done | | done].
    intros _. by exists before, after.
  - exists self. by split_and!.
Qed.

Lemma disconnect_effect_witness :
  (3%nat ∈ [1; 3; 2; 3]%nat) /\
  (exists self',
     disconnect {| active_connections := [1; 3; 2; 3]%nat;
                   conversation_history := ∅ |} 3%nat = Some self' /\
     active_connections self' = [1; 2; 3]%nat).
Proof.
  split; [compute_done|].
  destruct (disconnect_effect {| active_connections := [1; 3; 2; 3]%nat;
                                 conversation_history := ∅ |} 3%nat)
    as (self' & Hd & _).
  exists self'. split; [exact Hd|].
  vm_compute in Hd. by injection Hd as <-.
Defined.

(** X13.  Connecting a websocket that is not registered and disconnecting
    it again restores the active connections; the session that came with
    it stays in the conversation history. *)
Theorem connect_disconnect (self : ConnectionManager) (websocket : WebSocket)
    (session_id : str) :
  websocket ∉ active_connections self ->
  exists self',
    disconnect (connect self websocket session_id) websocket = Some self' /\
    active_connections self' = active_connections self /\
    conversation_history self' !! session_id =
      Some (default [] (conversation_history self !! session_id)).
Proof.
  intros Hnew. unfold disconnect.
  assert (active_connections (connect self websocket session_id)
          = active_connections self ++ [websocket]) as ->.
  { unfold connect. by case_match. }
  rewrite decide_True by (apply elem_of_app; right; by apply elem_of_cons; left).
  rewrite remove_last_added by done. eexists. split; [done|].
  split; [done|]. simpl. unfold connect.
  destruct (conversation_history self !! session_id) eqn:Hs; simpl;
    [done | by rewrite lookup_insert_eq].
Qed.

Lemma connect_disconnect_witness :
  (7%nat ∉ active_connections new_manager) /\
  (exists self',
     disconnect (connect new_manager 7%nat (lit "abc")) 7%nat = Some self' /\
     active_connections self' = [] /\
     conversation_history self' !! lit "abc" = Some []).
Proof.
  assert (7%nat ∉ active_connections new_manager) as H
    by apply not_elem_of_nil.
  split; [exact H|]. exact (connect_disconnect new_manager 7%nat (lit "abc") H).
Defined.

Lemma history_append_lookup self session_id entry self' sid :
  history_append self session_id entry = Some self' ->
  conversation_history self' !! sid =
    if decide (session_id = sid)
    then (fun history => history ++ [entry]) <$> conversation_history self !! sid
    else conversation_history self !! sid.
Proof.
  unfold history_append.
  destruct (conversation_history self !! session_id) as [history|] eqn:Hs;
    [|done].
  intros [= <-]. simpl. rewrite lookup_insert. case_decide; [|done].
  subst. by rewrite Hs.
Qed.

Lemma history_append_active self session_id entry self' :
  history_append self session_id entry = Some self' ->
  active_connections self' = active_connections self.
Proof.
  unfold history_append. case_match; [|done]. by intros [= <-].
Qed.

Lemma history_append_grows self session_id entry self' sid history :
  history_append self session_id entry = Some self' ->
  conversation_history self !! sid = Some history ->
  exists more, conversation_history self' !! sid = Some (history ++ more).
Proof.
  intros Happ Hs. rewrite (history_append_lookup _ _ _ _ sid Happ), Hs.
  case_decide; [by exists [entry] | exists []; by rewrite app_nil_r].
Qed.

Lemma step_grows self s sid history :
  conversation_history self !! sid = Some history ->
  exists more,
    conversation_history (step self s) !! sid = Some (history ++ more).
Proof.
  intros Hs. destruct s as [ws session_id | ws | session_id md
                           | session_id agent result]; simpl.
  - exists []. rewrite app_nil_r. unfold connect.
    destruct (conversation_history self !! session_id) eqn:Hsession;
      simpl; [done|].
    rewrite lookup_insert_ne; [done|]. intros ->. congruence.
  - exists []. by rewrite app_nil_r, disconnect_history.
  - unfold receive. repeat case_match; subst;
      try (exists []; by rewrite app_nil_r).
    all: match goal with
         | H : running _ _ _ = running _ _ _ |- _ => injection H as <- _ _
         | _ => idtac
         end.
    all: try (eapply history_append_grows; eassumption).
    all: try (exists []; by rewrite app_nil_r).
  - unfold reply. repeat case_match; subst; simpl;
      try (exists []; by rewrite app_nil_r).
    eapply history_append_grows; eassumption.
Qed.

Lemma conversations_only_grow_helper (steps : list Step)
    (self : ConnectionManager) (session_id : str) (history : list Entry) :
  conversation_history self !! session_id = Some history ->
  exists more,
    conversation_history (fold_left step steps self) !! session_id =
    Some (history ++ more).
Proof.
  revert self history. induction steps as [|s steps IH]; intros self history Hs.
  - exists []. by rewrite app_nil_r.
  - simpl. destruct (step_grows self s session_id history Hs) as [more1 H1].
    destruct (IH _ _ H1) as [more2 H2]. exists (more1 ++ more2).
    by rewrite app_assoc.
Qed.

(** X14.  Whatever the connections of the server do, in whatever order -
    connect, disconnect, receive a message, get the reply of an agent -
    a conversation that exists is never dropped or cut: it only grows at
    its end. *)
Theorem conversations_only_grow (steps : list Step)
    (self : ConnectionManager) (session_id : str) (history : list Entry) :
  conversation_history self !! session_id = Some history ->
  exists more,
    conversation_history (fold_left step steps self) !! session_id =
    Some (history ++ more).
Proof. apply conversations_only_grow_helper. Qed.

Lemma conversations_only_grow_witness :
  exists more,
    conversation_history
      (fold_left step
         [do_receive (lit "abc")
            (list_to_map [(lit "type", lit "message");
                          (lit "content", lit "hello")]);
          do_disconnect 7%nat;
          do_reply (lit "abc") simple_agent (inl (lit "hi"))]
         (connect new_manager 7%nat (lit "abc"))) !! lit "abc" =
    Some ([] ++ more).
Proof.
  apply conversations_only_grow. vm_compute. reflexivity.
Defined.

(** X15.  Once a session has connected, appending to its conversation
    never raises [KeyError], whatever the connections of the server have
    done in between. *)
Theorem connected_session_has_history (self : ConnectionManager)
    (websocket : WebSocket) (session_id : str) (steps : list Step)
    (entry : Entry) :
  is_Some (history_append
             (fold_left step steps (connect self websocket session_id))
             session_id entry).
Proof.
  assert (is_Some (conversation_history (connect self websocket session_id)
                     !! session_id)) as [history Hs].
  { unfold connect.
    destruct (conversation_history self !! session_id) eqn:Hsession; simpl;
      [by rewrite Hsession | by rewrite lookup_insert_eq]. }
  destruct (conversations_only_grow_helper steps _ _ _ Hs) as [more Hm].
  unfold history_append. by rewrite Hm.
Qed.

Lemma reply_active self session_id agent result :
  active_connections (reply self session_id agent result).1 =
  active_connections self.
Proof.
  unfold reply. destruct result as [output|e]; [|done].
  destruct (history_append self session_id _) eqn:H; [|done].
  simpl. by eapply history_append_active.
Qed.

Lemma reply_history self session_id agent result :
  is_Some (conversation_history self !! session_id) ->
  is_Some (conversation_history (reply self session_id agent result).1
             !! session_id).
Proof.
  intros [history Hs]. unfold reply. destruct result as [output|e]; [|by eexists].
  destruct (history_append self session_id _) eqn:H; [|by eexists].
  simpl. destruct (history_append_grows _ _ _ _ _ _ H Hs) as [more ->].
  by eexists.
Qed.

(** One turn of the handler for a session that has a conversation. *)
Lemma on_message_spec run self session_id message_data :
  is_Some (conversation_history self !! session_id) ->
  active_connections (on_message run self session_id message_data).1.1 =
    active_connections self /\
  is_Some (conversation_history
             (on_message run self session_id message_data).1.1
             !! session_id) /\
  ((on_message run self session_id message_data).2 = None
   <-> readable message_data).
Proof.
  intros [history Hs]. unfold on_message, receive, readable.
  destruct (message_data !! lit "type") as [type|] eqn:Htype; cbn [fst snd].
  2: { split_and!; [done | by eexists |]. split; [done|].
       by intros [[? ?] _]. }
  case_decide as Hmessage.
  2: { split_and!; [done | by eexists |]. split; [intros _|done].
       split; [by eexists|]. intros [= ?]. done. }
  destruct (message_data !! lit "content") as [content|] eqn:Hcontent;
    cbn [fst snd].
  2: { split_and!; [done | by eexists |]. split; [done|].
       intros [_ H]. subst. by destruct (H eq_refl). }
  unfold history_append. rewrite Hs.
  match goal with
  | |- context [reply ?m ?sid ?a ?r] =>
      pose proof (reply_active m sid a r) as Hactive;
      pose proof (reply_history m sid a r) as Hhistory;
      destruct (reply m sid a r) as [self' sent]
  end.
  simpl in *. split_and!.
  - done.
  - apply Hhistory. rewrite lookup_insert_eq. by eexists.
  - split; [intros _|done]. split; by eexists.
Qed.

Lemma serve_spec run incoming self session_id :
  is_Some (conversation_history self !! session_id) ->
  active_connections (serve run self session_id incoming).1.1 =
    active_connections self /\
  ((serve run self session_id incoming).2 = None
   <-> Forall readable incoming).
Proof.
  revert self. induction incoming as [|message_data incoming IH];
    intros self Hs; [done|].
  cbn [serve].
  destruct (on_message_spec run self session_id message_data Hs)
    as (Hactive & Hhistory & Hexn).
  destruct (on_message run self session_id message_data)
    as [[self1 sent1] [e|]]; simpl in *.
  - split; [done|]. split; [done|].
    intros [Hr _]%Forall_cons. by apply Hexn in Hr.
  - destruct (IH self1 Hhistory) as [Hactive' Hexn'].
    destruct (serve run self1 session_id incoming) as [[self2 sent2] exn2].
    simpl in *. split; [congruence|]. rewrite Hexn', Forall_cons.
    split; [intros H; split; [by apply Hexn | done] | by intros [_ ?]].
Qed.

(** X16.  [websocket_endpoint] ends without an exception exactly when
    every message that arrives has a type, and a content if the type is
    "message".  It then unregisters the websocket, which restores the
    active connections if the websocket was new; when a message raises,
    the websocket stays among the active connections. *)
Theorem websocket_endpoint_cleanup (run : Agent -> str -> str + Exn)
    (self : ConnectionManager) (websocket : WebSocket) (session_id : str)
    (incoming : list (gmap str str)) :
  ((websocket_endpoint run self websocket session_id incoming).2 = None
   <-> Forall readable incoming) /\
  ((websocket_endpoint run self websocket session_id incoming).2 = None ->
   websocket ∉ active_connections self ->
   active_connections
     (websocket_endpoint run self websocket session_id incoming).1.1 =
   active_connections self) /\
  ((websocket_endpoint run self websocket session_id incoming).2 <> None ->
   websocket ∈ active_connections
     (websocket_endpoint run self websocket session_id incoming).1.1).
Proof.
  unfold websocket_endpoint.
  assert (active_connections (connect self websocket session_id)
          = active_connections self ++ [websocket]) as Hconnect.
  { unfold connect. by case_match. }
  assert (is_Some (conversation_history (connect self websocket session_id)
                     !! session_id)) as Hs.
  { unfold connect.
    destruct (conversation_history self !! session_id) eqn:Hsession; simpl;
      [by rewrite Hsession | by rewrite lookup_insert_eq]. }
  destruct (serve_spec run incoming _ session_id Hs) as [Hactive Hexn].
  destruct (serve run (connect self websocket session_id) session_id incoming)
    as [[self1 sent] [e|]]; simpl in *.
  - split_and!; [done | done |]. intros _. rewrite Hactive, Hconnect.
    apply elem_of_app. right. apply elem_of_cons. by left.
  - split_and!; [done | | done]. intros _ Hnew.
    unfold disconnect. rewrite Hactive, Hconnect.
    rewrite decide_True
      by (apply elem_of_app; right; apply elem_of_cons; by left).
    by rewrite remove_last_added.
Qed.

Lemma websocket_endpoint_cleanup_witness :
  (websocket_endpoint (fun _ _ => inl (lit "hi")) new_manager 7%nat
     (lit "abc") [list_to_map [(lit "content", lit "hello")]]).2 <> None /\
  (7%nat ∈ active_connections
     (websocket_endpoint (fun _ _ => inl (lit "hi")) new_manager 7%nat
        (lit "abc") [list_to_map [(lit "content", lit "hello")]]).1.1).
Proof.
  assert ((websocket_endpoint (fun _ _ => inl (lit "hi")) new_manager 7%nat
             (lit "abc") [list_to_map [(lit "content", lit "hello")]]).2
          <> None) as H by (by vm_compute).
  split; [exact H|].
  exact (proj2 (proj2 (websocket_endpoint_cleanup
                         (fun _ _ => inl (lit "hi")) new_manager 7%nat
                         (lit "abc")
                         [list_to_map [(lit "content", lit "hello")]])) H).
Defined.

End Connections.

(** ** The chat endpoint of app.py *)
Section AppEndpoint.
Import AppChat.

(** X17.  [chat_with_agent] answers for every agent key: "linkedin" gets
    the LinkedIn Reformatter, and every other key - "simple", and also
    "math", "weather", "time" and "advanced", which only web_ui_server.py
    registers - gets the Personal Assistant.  A run that raises becomes an
    HTTP error 500 with the text of the exception. *)
Theorem chat_with_agent_routing (run : Agent -> str -> str + str)
    (request : ChatRequest) :
  chat_with_agent run request =
    match run (if decide (agent request = lit "linkedin")
               then linkedin_agent else simple_agent) (message request) with
    | inl response =>
        ChatResponse response
          (if decide (agent request = lit "linkedin")
           then lit "LinkedIn Reformatter" else lit "Personal Assistant")
    | inr e => HTTPException 500 e
    end /\
  WebUiServerChat.name
    (default WebUiServerChat.simple_agent
       (WebUiServerChat.AGENTS !! agent request)) =
    (if decide (agent request = lit "math") then lit "Math Specialist"
     else if decide (agent request = lit "weather")
     then lit "Weather Specialist"
     else if decide (agent request = lit "time") then lit "Time Keeper"
     else if decide (agent request = lit "advanced")
     then lit "Assistant Coordinator"
     else if decide (agent request = lit "linkedin")
     then lit "LinkedIn Reformatter"
     else lit "Personal Assistant").
Proof.
  unfold chat_with_agent, AGENTS, WebUiServerChat.AGENTS. cbv zeta.
  rewrite !lookup_list_to_map. cbn [assoc]. split.
  - repeat case_decide; first [done | congruence | key_clash].
  - repeat case_decide; first [done | congruence | key_clash].
Qed.

End AppEndpoint.

(** ** Length judgements of linkedin_agent_example.py *)
Section LengthJudgements.

(** X18.  In linkedin_agent_example.py the length classifier and the
    engagement scorer agree: the classifier says "optimal length" exactly
    when the scorer gives the points for the length, from 1300 to 3000
    characters. *)
Theorem length_judgements_linkedin (content : str) :
  (LinkedinAgentExample.analyze_post_length content =
     StreamlitUi.optimal_length (length content)
   <-> EngagementChecks.has_optimal_length content = true) /\
  (EngagementChecks.has_optimal_length content = true
   <-> (1300 <= length content <= 3000)%nat).
Proof.
  pose proof (streamlit_labels_distinct (length content))
    as (B1 & B2 & B3 & B4 & B5 & B6).
  unfold LinkedinAgentExample.analyze_post_length,
    EngagementChecks.has_optimal_length. cbv zeta.
  destruct (Nat.ltb_spec (length content) 300);
    destruct (Nat.ltb_spec (length content) 1300);
    destruct (Nat.leb_spec 1300 (length content));
    destruct (Nat.leb_spec (length content) 3000);
    try lia; simpl; repeat split; intros; try lia; try congruence.
Qed.

End LengthJudgements.

(** ** The lines of the text that the reflow formatter returns *)
Section ReturnedText.
Import Py WebUiServer.

Lemma word_one_line w : word w -> one_line w.
Proof.
  intros [_ H]. unfold one_line. eapply Forall_impl; [exact H|].
  intros c Hc. simpl in Hc. destruct (Ascii.eqb_spec NL c) as [<-|]; done.
Qed.

Lemma words_one_line ws : Forall word ws -> Forall one_line ws.
Proof. intros H. eapply Forall_impl; [exact H | apply word_one_line]. Qed.

Lemma join_one_line ws :
  Forall one_line ws -> one_line (join (lit " ") ws).
Proof.
  induction 1 as [|w ws Hw Hws IH]; [constructor|].
  destruct ws as [|w' ws]; [done|].
  change (join (lit " ") (w :: w' :: ws))
    with (w ++ " "%char :: join (lit " ") (w' :: ws)).
  apply Forall_app. split; [done|]. by constructor.
Qed.

Lemma lstrip_Forall (P : ascii -> Prop) s :
  Forall P s -> Forall P (lstrip s).
Proof.
  induction 1 as [|c s Hc Hs IH]; simpl; [constructor|].
  destruct (is_space c); [done | by constructor].
Qed.

Lemma strip_one_line s : one_line s -> one_line (strip s).
Proof.
  intros H. unfold strip, rstrip, one_line.
  by apply List.Forall_rev, lstrip_Forall, List.Forall_rev, lstrip_Forall.
Qed.

Lemma add_word_one_line st w :
  word w -> Forall word st.2 -> Forall one_line st.1 ->
  Forall one_line (add_word st w).1 /\ Forall word (add_word st w).2.
Proof.
  destruct st as [lines current_line]. intros Hw Hcur Hlines.
  rewrite add_word_eq. cbn [fst snd] in *.
  destruct (15 <? length (join (lit " ") (current_line ++ [w])))%nat;
    [destruct (1 <? length (current_line ++ [w]))%nat|]; cbn [fst snd].
  - split; [|by constructor].
    apply Forall_app. split; [done|]. constructor; [|done].
    by apply join_one_line, words_one_line.
  - split; [|constructor].
    apply Forall_app. split; [done|]. constructor; [|done].
    by apply word_one_line.
  - split; [done|]. apply Forall_app. split; [done | by constructor].
Qed.

Lemma word_loop_one_line ws st :
  Forall word ws -> Forall word st.2 -> Forall one_line st.1 ->
  Forall one_line (fold_left add_word ws st).1 /\
  Forall word (fold_left add_word ws st).2.
Proof.
  intros Hws. revert st.
  induction Hws as [|w ws Hw _ IH]; intros st Hcur Hlines; [done|].
  simpl. destruct (add_word_one_line st w Hw Hcur Hlines). by apply IH.
Qed.

Lemma add_sentence_one_line lines sentence :
  one_line sentence -> Forall one_line lines ->
  Forall one_line (add_sentence lines sentence).
Proof.
  intros Hs Hlines. unfold add_sentence.
  destruct (nonempty (strip sentence)); [|done]. cbn [andb].
  destruct (15 <? length (strip sentence))%nat.
  - destruct (word_loop_one_line (split_ws (strip sentence)) (lines, []))
      as [Hlines' Hcur]; [apply split_ws_words | constructor | done |].
    destruct (fold_left add_word _ _) as [lines' current_line].
    cbn [fst snd] in *. destruct current_line; [done|].
    cbn [nonempty_list]. apply Forall_app. split; [done|].
    constructor; [|done]. by apply join_one_line, words_one_line.
  - apply Forall_app. split; [done|]. constructor; [|done].
    by apply strip_one_line.
Qed.

Lemma lines_of_one_line original_content :
  Forall one_line (lines_of original_content).
Proof.
  unfold lines_of.
  assert (Forall one_line (sentences original_content)) as Hss
    by apply fields_Forall.
  assert (Forall one_line ([] : list str)) as Hnil by constructor.
  revert Hnil. generalize ([] : list str).
  induction Hss as [|s ss Hs _ IH]; intros lines Hlines; [done|].
  simpl. by apply IH, add_sentence_one_line.
Qed.

Lemma formatted_lines_one_line original_content :
  Forall one_line (formatted_lines original_content).
Proof.
  apply Forall_forall. intros line Hin.
  unfold formatted_lines in Hin. cbv zeta in Hin.
  apply spacing_loop_elem in Hin as [Hin | [-> | Hin]].
  - by apply elem_of_nil in Hin.
  - constructor.
  - rewrite enumerate_lines in Hin.
    pose proof (lines_of_one_line original_content) as H.
    rewrite Forall_forall in H. by apply H.
Qed.

(** Lines without a line break, joined by line breaks and split again. *)
Lemma fields_join_lines (ls : list str) :
  ls <> [] -> Forall one_line ls ->
  fields (Ascii.eqb NL) (join [NL] ls) = ls.
Proof.
  induction ls as [|x ls IH]; [done|].
  intros _ [Hx Hls]%Forall_cons. destruct ls as [|y ls].
  - cbn [join]. by apply fields_no_sep.
  - change (join [NL] (x :: y :: ls)) with (x ++ NL :: join [NL] (y :: ls)).
    rewrite fields_app by done. rewrite fields_no_sep by done.
    by rewrite IH.
Qed.

(** The returned text is the heading, a blank line, and the lines of the
    formatter (a second blank line when there are none). *)
Lemma returned_text_lines original_content :
  text_lines (format_linkedin_post_correctly original_content) =
    heading :: body_lines original_content /\
  body_lines original_content =
    [] :: match formatted_lines original_content with
          | [] => [[]]
          | _ :: _ => formatted_lines original_content
          end.
Proof.
  unfold body_lines, text_lines. rewrite formatted_text_lines.
  cbn [tail]. split; [done|]. f_equal.
  destruct (formatted_lines original_content) as [|l ls] eqn:H; [done|].
  rewrite <- H. apply fields_join_lines; [by rewrite H|].
  apply formatted_lines_one_line.
Qed.

Lemma body_lines_elem original_content line :
  line ∈ body_lines original_content -> line <> [] ->
  line ∈ lines_of original_content.
Proof.
  destruct (returned_text_lines original_content) as [_ ->].
  intros [-> | Hin]%elem_of_cons Hne; [done|].
  apply formatted_lines_elem; [|done].
  destruct (formatted_lines original_content); [|done].
  by apply list_elem_of_singleton in Hin.
Qed.

Lemma rejoined_body_eq original_content :
  rejoined_body original_content = rejoined original_content.
Proof.
  unfold rejoined_body, rejoined.
  destruct (returned_text_lines original_content) as [_ ->].
  by destruct (formatted_lines original_content).
Qed.

(** C6, as the specification states it, fails: the text that the reflow
    formatter returns starts at every input with the heading, a non-blank
    line of 28 characters with two spaces in it, which is not a word. *)
Lemma heading_is_long_line :
  heading ∈ text_lines (format_linkedin_post_correctly (lit "Hi there.")) /\
  heading <> [] /\ (15 < length heading)%nat /\ (" "%char ∈ heading) /\
  ~ word heading.
Proof.
  split_and!; [compute_done | done | compute_done | compute_done |].
  intros [_ H]. rewrite Forall_forall in H.
  assert (" "%char ∈ heading) as Hspace by compute_done.
  by apply H in Hspace.
Qed.

(** C6, amended.  The text that the reflow formatter returns starts with
    the heading "CORRECTLY FORMATTED VERSION:"; every non-blank line after
    the heading has at most 15 characters or is a single word of the
    fragments of the input, emitted as it is; so every line after the
    heading with a space in it has at most 15 characters. *)
Theorem returned_line_lengths (original_content : str) :
  text_lines (format_linkedin_post_correctly original_content) =
    heading :: body_lines original_content /\
  forall line,
    line ∈ body_lines original_content -> line <> [] ->
    ((length line <= 15)%nat \/
     (word line /\ line ∈ fragment_words original_content)) /\
    (" "%char ∈ line -> (length line <= 15)%nat).
Proof.
  split; [apply returned_text_lines|]. intros line Hin Hne.
  pose proof (lines_of_ok original_content) as Hok.
  rewrite Forall_forall in Hok.
  specialize (Hok line (body_lines_elem _ _ Hin Hne)).
  split; [exact Hok|].
  intros Hspace. destruct Hok as [Hlen | [[_ Hall] _]]; [done|].
  rewrite Forall_forall in Hall. by specialize (Hall _ Hspace).
Qed.

Lemma returned_line_lengths_witness :
  (long_word ∈ body_lines long_word_text) /\
  ((length long_word <= 15)%nat \/
   (word long_word /\ long_word ∈ fragment_words long_word_text)).
Proof.
  assert (long_word ∈ body_lines long_word_text) as Hin.
  { apply list_elem_of_In. vm_compute. tauto. }
  split; [exact Hin|].
  apply (proj2 (returned_line_lengths long_word_text) long_word Hin).
  discriminate.
Defined.

(** C7, as the specification states it, fails: for the text "a.b" the
    non-empty lines of the returned text are the heading, "a." and "b";
    joined by spaces they do not give the input back, and without the
    heading they give "a. b", a text of two words, while the input is one
    word. *)
Lemma returned_text_breaks_word :
  rejoined_text (lit "a.b") = lit "CORRECTLY FORMATTED VERSION: a. b" /\
  normalize_ws (rejoined_text (lit "a.b")) <> normalize_ws (lit "a.b") /\
  rejoined_body (lit "a.b") = lit "a. b" /\
  normalize_ws (rejoined_body (lit "a.b")) <> normalize_ws (lit "a.b").
Proof. split_and!; by vm_compute. Qed.

(** C7, amended.  The text that the reflow formatter returns starts with
    the heading "CORRECTLY FORMATTED VERSION:".  Its non-empty lines after
    the heading, joined by single spaces, are the input with a line break
    after every '.', '!' and '?', up to whitespace normalization: they
    have the same words in the same order.  The characters of the input
    that are not whitespace are reproduced exactly and in order: after
    the heading only whitespace is introduced or removed. *)
Theorem returned_round_trip (original_content : str) :
  text_lines (format_linkedin_post_correctly original_content) =
    heading :: body_lines original_content /\
  normalize_ws (rejoined_body original_content) =
    normalize_ws (with_breaks original_content) /\
  split_ws (rejoined_body original_content) =
    split_ws (with_breaks original_content) /\
  non_space (rejoined_body original_content) = non_space original_content.
Proof.
  split; [apply returned_text_lines|]. rewrite rejoined_body_eq.
  pose proof (rejoined_words original_content) as H.
  unfold fragment_words in H. split_and!.
  - unfold normalize_ws. by rewrite H.
  - done.
  - rewrite <- (non_space_words (rejoined original_content)), H.
    rewrite non_space_words. apply non_space_with_breaks.
Qed.

End ReturnedText.
